(** * codebase_stats: a bounded directory inventory

    Shallow embedding of [skills/codebase-stats/tools/codebase_stats.py]
    (the Scanner [collect_stats] and the Reporter [build_output]) together
    with the properties of its specification.

    Conventions of the embedding.
    - Python integers are [Z]; byte strings are [list byte]; decoded text is
      a list of code points ([N]).
    - File names are [string]s of ASCII characters; [str.lower] is modelled
      on the ASCII letters.
    - The file system is a finite tree, as [os.walk] presents it: every
      directory is a pair of its non-directory entries and its directory
      entries, in [scandir] order.  Each system call made on a file has its
      outcome recorded in the file ([None] for a raised [OSError]).
    - [os.walk] is the top-down walk that does not follow links and ignores
      the errors of [scandir].
    - A Python [dict] is an association list in insertion order.
    - An exception leaving a function is the [Raised] outcome. *)

From Stdlib Require Import ZArith NArith Bool List Lia.
From Stdlib.Strings Require Import Ascii String Byte.
From Stdlib Require Import Permutation Sorted.
Import ListNotations.

Local Open Scope Z_scope.

(** ** Library semantics used by the tool *)

Module Py.

(** *** exceptions *)

Inductive exn := OSError.

Inductive result (A : Type) :=
| Returned (a : A)
| Raised (e : exn).
Arguments Returned {A} a.
Arguments Raised {A} e.

(** *** bytes.decode("utf-8", errors=...) as CPython's [utf8_decode] does it *)

Inductive error_handler := Ignore | Replace.

(** What the handler contributes for one malformed span. *)
Definition on_error (h : error_handler) : list N :=
  match h with
  | Ignore => []
  | Replace => [65533%N]
  end.

Definition is_continuation (ch : N) : bool :=
  ((128 <=? ch) && (ch <? 192))%N.

Fixpoint utf8_decode (h : error_handler) (bs : list byte) : list N :=
  match bs with
  | [] => []
  | b0 :: r0 =>
    let ch := Byte.to_N b0 in
    if (ch <? 128)%N then ch :: utf8_decode h r0
    else if (ch <? 194)%N then
      (* invalid start byte: span of one byte *)
      on_error h ++ utf8_decode h r0
    else if (ch <? 224)%N then
      match r0 with
      | [] => on_error h (* unexpected end of data *)
      | b1 :: r1 =>
        let ch2 := Byte.to_N b1 in
        if negb (is_continuation ch2) then on_error h ++ utf8_decode h r0
        else (ch * 64 + ch2 - (192 * 64 + 128))%N :: utf8_decode h r1
      end
    else if (ch <? 240)%N then
      match r0 with
      | [] => on_error h
      | b1 :: r1 =>
        let ch2 := Byte.to_N b1 in
        if negb (is_continuation ch2)
           || (if (ch2 <? 160)%N then (ch =? 224)%N else (ch =? 237)%N)
        then on_error h ++ utf8_decode h r0
        else
          match r1 with
          | [] => on_error h
          | b2 :: r2 =>
            let ch3 := Byte.to_N b2 in
            if negb (is_continuation ch3) then on_error h ++ utf8_decode h r1
            else (ch * 4096 + ch2 * 64 + ch3
                  - (224 * 4096 + 128 * 64 + 128))%N :: utf8_decode h r2
          end
      end
    else if (ch <? 245)%N then
      match r0 with
      | [] => on_error h
      | b1 :: r1 =>
        let ch2 := Byte.to_N b1 in
        if negb (is_continuation ch2)
           || (if (ch2 <? 144)%N then (ch =? 240)%N else (ch =? 244)%N)
        then on_error h ++ utf8_decode h r0
        else
          match r1 with
          | [] => on_error h
          | b2 :: r2 =>
            let ch3 := Byte.to_N b2 in
            if negb (is_continuation ch3) then on_error h ++ utf8_decode h r1
            else
              match r2 with
              | [] => on_error h
              | b3 :: r3 =>
                let ch4 := Byte.to_N b3 in
                if negb (is_continuation ch4)
                then on_error h ++ utf8_decode h r2
                else (ch * 262144 + ch2 * 4096 + ch3 * 64 + ch4
                      - (240 * 262144 + 128 * 4096 + 128 * 64 + 128))%N
                     :: utf8_decode h r3
              end
          end
      end
    else on_error h ++ utf8_decode h r0
  end.

(** *** iterating a text-mode file (universal newlines)

    Each of LF, CR and CR LF ends a line; what follows the last terminator
    is a line of its own when it is not empty.  [cur] is the line being
    read, most recent character first. *)

Definition LF : N := 10%N.
Definition CR : N := 13%N.

Fixpoint text_lines_from (cur : list N) (cs : list N) : list (list N) :=
  match cs with
  | [] => match cur with [] => [] | _ => [rev cur] end
  | c :: rest =>
    if (c =? LF)%N then rev (LF :: cur) :: text_lines_from [] rest
    else if (c =? CR)%N then
      match rest with
      | c' :: rest' =>
        if (c' =? LF)%N then rev (LF :: cur) :: text_lines_from [] rest'
        else rev (LF :: cur) :: text_lines_from [] rest
      | [] => rev (LF :: cur) :: text_lines_from [] rest
      end
    else text_lines_from (c :: cur) rest
  end.

Definition text_lines (cs : list N) : list (list N) := text_lines_from [] cs.

(** *** str methods *)

Definition startswith_dot (s : string) : bool :=
  match s with
  | String c _ => Ascii.eqb c "."
  | EmptyString => false
  end.

(** [s.rfind(c)]: index of the last occurrence, or -1. *)
Fixpoint rfind (c : ascii) (s : string) : Z :=
  match s with
  | EmptyString => -1
  | String a s' =>
    let r := rfind c s' in
    if 0 <=? r then r + 1
    else if Ascii.eqb a c then 0 else -1
  end.

(** [s[n:]] for [0 <= n]. *)
Fixpoint drop (n : nat) (s : string) : string :=
  match n, s with
  | O, _ => s
  | S n', String _ s' => drop n' s'
  | S _, EmptyString => EmptyString
  end.

Definition lower_char (c : ascii) : ascii :=
  let n := N_of_ascii c in
  if ((65 <=? n) && (n <=? 90))%N then ascii_of_N (n + 32) else c.

Fixpoint lower (s : string) : string :=
  match s with
  | EmptyString => EmptyString
  | String c s' => String (lower_char c) (lower s')
  end.

(** [s.lstrip(".")] *)
Fixpoint lstrip_dot (s : string) : string :=
  match s with
  | String c s' => if Ascii.eqb c "." then lstrip_dot s' else s
  | EmptyString => EmptyString
  end.

(** [PurePath.suffix] of a path whose final component is [name], as CPython
    up to 3.13 computes it. *)
Definition suffix (name : string) : string :=
  let i := rfind "." name in
  if (0 <? i) && (i <? Z.of_nat (String.length name) - 1)
  then drop (Z.to_nat i) name
  else EmptyString.

(** *** list.sort(key=...) and sorted(): a stable sort by key *)

Section Sort.
Context {A : Type} (le : A -> A -> bool).

Fixpoint insert_sorted (x : A) (l : list A) : list A :=
  match l with
  | [] => [x]
  | y :: l' => if le x y then x :: l else y :: insert_sorted x l'
  end.

Definition sort (l : list A) : list A := fold_right insert_sorted [] l.
End Sort.

(** [l[:n]] *)
Definition slice_to {A : Type} (n : Z) (l : list A) : list A :=
  if 0 <=? n then firstn (Z.to_nat n) l
  else firstn (List.length l - Z.to_nat (- n))%nat l.

(** *** dict *)

Section Dict.
Context {V : Type}.

Definition dict := list (string * V).

Fixpoint get (k : string) (d : dict) : option V :=
  match d with
  | [] => None
  | (k', v) :: d' => if String.eqb k' k then Some v else get k d'
  end.

(** [d.setdefault(k, v)]: the dict afterwards. *)
Fixpoint setdefault (k : string) (v : V) (d : dict) : dict :=
  match d with
  | [] => [(k, v)]
  | (k', v') :: d' =>
    if String.eqb k' k then d else (k', v') :: setdefault k v d'
  end.

(** In-place update of the value stored under [k]. *)
Fixpoint update (k : string) (f : V -> V) (d : dict) : dict :=
  match d with
  | [] => []
  | (k', v') :: d' =>
    if String.eqb k' k then (k', f v') :: d' else (k', v') :: update k f d'
  end.
End Dict.
Arguments dict V : clear implicits.

End Py.


(** ** The file system seen by one scan *)

(** A non-directory entry, with the outcome of each call the tool makes on
    it. *)
Record file := {
  is_file : bool;                   (* Path.is_file() *)
  is_symlink : bool;                (* Path.is_symlink() *)
  st_size : option Z;               (* Path.stat().st_size, None: OSError *)
  read_rb : option (list byte);     (* open("rb") and read, None: OSError *)
  read_text : option (list byte)    (* open("r") and iteration: the bytes
                                       handed to the decoder, None: OSError *)
}.

(** A directory as [os.walk] lists it: the names that are not directories and
    the names that are.  [walked] is false for a directory that [os.walk]
    lists in its parent but does not enter: a symbolic link to a directory,
    or a directory whose [scandir] fails. *)
#[local] Unset Elimination Schemes.
Inductive tree :=
| Node (walked : bool) (nondirs : list (string * file))
       (subdirs : list (string * tree)).
#[local] Set Elimination Schemes.

(** ** The tool *)

Import Py.

Definition MAX_TEXT_FILE_BYTES : Z := 2 * 1024 * 1024.

Definition normalize_ext (name : string) : string :=
  let suffix := lstrip_dot (lower (suffix name)) in
  match suffix with
  | String _ _ => suffix
  | EmptyString => "no_ext"%string
  end.

Definition line_count (f : file) : result Z :=
  match read_text f with
  | None => Raised OSError
  | Some bs =>
    Returned (fold_left (fun count _ => count + 1)
                        (text_lines (utf8_decode Ignore bs)) 0)
  end.

Definition is_binary_or_too_large (f : file) : bool :=
  match st_size f with
  | None => true
  | Some size =>
    if size >? MAX_TEXT_FILE_BYTES then true
    else
      match read_rb f with
      | None => true
      | Some content =>
        let sample := firstn 2048 content in
        existsb (Byte.eqb x00) sample
      end
  end.

Definition should_skip_name (name : string) (include_hidden : bool) : bool :=
  if include_hidden then false else startswith_dot name.

(** [rel] holds the parts of [path.relative_to(scan_root)]. *)
Definition within_depth (rel : list string) (max_depth : Z) : bool :=
  Z.of_nat (List.length rel) <=? max_depth.

Record bucket := { b_files : Z; b_lines : Z }.

Record stats := {
  ext_stats : dict bucket;
  scanned_files : Z;
  scanned_dirs : Z;
  skipped_files : Z;
  total_lines : Z;
  truncated : bool
}.

(** How one iteration of a loop of [collect_stats] ends. *)
Inductive flow :=
| Continue (acc : stats)
| Return (r : stats)
| Raise (e : exn).

Definition name_le (a b : string * file) : bool := String.leb (fst a) (fst b).

Section Scan.
Variables (max_depth : Z) (include_hidden : bool) (max_files : Z).

(** The body of [for filename in sorted(files)]. *)
Definition scan_file (nf : string * file) (acc : stats) : flow :=
  let (filename, f) := nf in
  if negb (is_file f) || is_symlink f then
    Continue {| ext_stats := ext_stats acc;
                scanned_files := scanned_files acc;
                scanned_dirs := scanned_dirs acc;
                skipped_files := skipped_files acc + 1;
                total_lines := total_lines acc;
                truncated := truncated acc |}
  else if is_binary_or_too_large f then
    Continue {| ext_stats := ext_stats acc;
                scanned_files := scanned_files acc;
                scanned_dirs := scanned_dirs acc;
                skipped_files := skipped_files acc + 1;
                total_lines := total_lines acc;
                truncated := truncated acc |}
  else
    let scanned := scanned_files acc + 1 in
    if scanned >? max_files then
      Return {| ext_stats := ext_stats acc;
                scanned_files := max_files;
                scanned_dirs := scanned_dirs acc;
                skipped_files := skipped_files acc;
                total_lines := total_lines acc;
                truncated := true |}
    else
      let ext := normalize_ext filename in
      match line_count f with
      | Raised e => Raise e
      | Returned lines =>
        let d := setdefault ext {| b_files := 0; b_lines := 0 |}
                            (ext_stats acc) in
        let d := update ext (fun b => {| b_files := b_files b + 1;
                                         b_lines := b_lines b + lines |}) d in
        Continue {| ext_stats := d;
                    scanned_files := scanned;
                    scanned_dirs := scanned_dirs acc;
                    skipped_files := skipped_files acc;
                    total_lines := total_lines acc + lines;
                    truncated := truncated acc |}
      end.

Fixpoint scan_files (fs : list (string * file)) (acc : stats) : flow :=
  match fs with
  | [] => Continue acc
  | nf :: fs' =>
    match scan_file nf acc with
    | Continue acc' => scan_files fs' acc'
    | stop => stop
    end
  end.

(** The names of a directory that survive the hidden-name filter, in the
    order the inner loop takes them. *)
Definition listed_files (nondirs : list (string * file))
  : list (string * file) :=
  sort name_le
       (filter (fun nf => negb (should_skip_name (fst nf) include_hidden))
               nondirs).

Definition enter_dir (acc : stats) : stats :=
  {| ext_stats := ext_stats acc;
     scanned_files := scanned_files acc;
     scanned_dirs := scanned_dirs acc + 1;
     skipped_files := skipped_files acc;
     total_lines := total_lines acc;
     truncated := truncated acc |}.

(** [for current_root, dirs, files in os.walk(scan_root)], top-down: the
    directory at [rel] is yielded, the body runs (it prunes [dirs] in place
    and scans the files), then the walk enters the directories left in
    [dirs], in order. *)
Fixpoint walk (rel : list string) (t : tree) (acc : stats) : flow :=
  match t with
  | Node walked nondirs subdirs =>
    if negb walked then Continue acc
    else if negb (within_depth rel max_depth) then
      (* dirs[:] = []; continue *)
      Continue acc
    else
      match scan_files (listed_files nondirs) (enter_dir acc) with
      | Continue acc1 =>
        (fix walk_dirs (ds : list (string * tree)) (a : stats) : flow :=
           match ds with
           | [] => Continue a
           | (d, sub) :: ds' =>
             if should_skip_name d include_hidden then walk_dirs ds' a
             else
               match walk (rel ++ [d]) sub a with
               | Continue a' => walk_dirs ds' a'
               | stop => stop
               end
           end) subdirs acc1
      | stop => stop
      end
  end.

Definition empty_stats : stats :=
  {| ext_stats := [];
     scanned_files := 0;
     scanned_dirs := 0;
     skipped_files := 0;
     total_lines := 0;
     truncated := false |}.

Definition collect_stats (scan_root : tree) : result stats :=
  match walk [] scan_root empty_stats with
  | Continue acc => Returned acc
  | Return r => Returned r
  | Raise e => Raised e
  end.

End Scan.

(** *** the report *)

Record group := { g_ext : string; g_files : Z; g_lines : Z }.

Record output := {
  out_status : string;
  out_tool : string;
  out_root : string;
  out_scanned_files : Z;
  out_scanned_dirs : Z;
  out_skipped_files : Z;
  out_total_lines : Z;
  out_top_extensions : list group;
  out_truncated : bool;
  out_generated_at : string
}.

(** The sort key [(-files, -lines, ext)] and the order of Python tuples. *)
Definition rank_key (g : group) : Z * Z * string :=
  (- g_files g, - g_lines g, g_ext g).

Definition key_compare (a b : Z * Z * string) : comparison :=
  match a, b with
  | (a1, a2, a3), (b1, b2, b3) =>
    match Z.compare a1 b1 with
    | Eq => match Z.compare a2 b2 with
            | Eq => String.compare a3 b3
            | c => c
            end
    | c => c
    end
  end.

Definition rank_le (g h : group) : bool :=
  match key_compare (rank_key g) (rank_key h) with
  | Gt => false
  | _ => true
  end.

Definition groups_of (d : dict bucket) : list group :=
  map (fun kv => {| g_ext := fst kv;
                    g_files := b_files (snd kv);
                    g_lines := b_lines (snd kv) |}) d.

(** [root] is [scan_root.as_posix()] and [now] the formatted clock. *)
Definition build_output (root now : string) (st : stats) (top_extensions : Z)
  : output :=
  let groups := groups_of (ext_stats st) in
  let groups := sort rank_le groups in
  let groups := slice_to top_extensions groups in
  {| out_status := "ok";
     out_tool := "codebase_stats";
     out_root := root;
     out_scanned_files := scanned_files st;
     out_scanned_dirs := scanned_dirs st;
     out_skipped_files := skipped_files st;
     out_total_lines := total_lines st;
     out_top_extensions := groups;
     out_truncated := truncated st;
     out_generated_at := now |}.


(** ** Vocabulary of the properties *)

(** *** the walk as a sequence of events

    The pruning of [dirs] depends on names and depth only, never on the
    counters, so the order in which a scan meets directories and files is a
    function of the tree.  [events] lists it; [run] is the loop of
    [collect_stats] over that list. *)

Inductive event :=
| EnterDir
| Visit (nf : string * file).

Section Events.
Variables (max_depth : Z) (include_hidden : bool) (max_files : Z).

Definition walk_dirs (rel : list string)
  : list (string * tree) -> stats -> flow :=
  fix walk_dirs (ds : list (string * tree)) (a : stats) : flow :=
    match ds with
    | [] => Continue a
    | (d, sub) :: ds' =>
      if should_skip_name d include_hidden then walk_dirs ds' a
      else
        match walk max_depth include_hidden max_files (rel ++ [d]) sub a with
        | Continue a' => walk_dirs ds' a'
        | stop => stop
        end
    end.

Fixpoint events (rel : list string) (t : tree) : list event :=
  match t with
  | Node walked nondirs subdirs =>
    if negb walked then []
    else if negb (within_depth rel max_depth) then []
    else
      EnterDir :: map Visit (listed_files include_hidden nondirs)
      ++ (fix events_dirs (ds : list (string * tree)) : list event :=
            match ds with
            | [] => []
            | (d, sub) :: ds' =>
              if should_skip_name d include_hidden then events_dirs ds'
              else events (rel ++ [d]) sub ++ events_dirs ds'
            end) subdirs
  end.

Definition events_dirs (rel : list string)
  : list (string * tree) -> list event :=
  fix events_dirs (ds : list (string * tree)) : list event :=
    match ds with
    | [] => []
    | (d, sub) :: ds' =>
      if should_skip_name d include_hidden then events_dirs ds'
      else events (rel ++ [d]) sub ++ events_dirs ds'
    end.

Definition step (ev : event) (acc : stats) : flow :=
  match ev with
  | EnterDir => Continue (enter_dir acc)
  | Visit nf => scan_file max_files nf acc
  end.

Fixpoint run (evs : list event) (acc : stats) : flow :=
  match evs with
  | [] => Continue acc
  | ev :: evs' =>
    match step ev acc with
    | Continue acc' => run evs' acc'
    | stop => stop
    end
  end.

End Events.

(** *** eligibility and the accounting of one scan *)

(** A visited file is counted when it passes both checks of the inner
    loop. *)
Definition eligible (f : file) : bool :=
  is_file f && negb (is_symlink f) && negb (is_binary_or_too_large f).

Definition counts (ev : event) : bool :=
  match ev with
  | EnterDir => false
  | Visit nf => eligible (snd nf)
  end.

Definition counted (evs : list event) : Z :=
  Z.of_nat (List.length (filter counts evs)).

Definition sum_files (d : dict bucket) : Z :=
  fold_right (fun kv s => b_files (snd kv) + s) 0 d.

Definition sum_lines (d : dict bucket) : Z :=
  fold_right (fun kv s => b_lines (snd kv) + s) 0 d.

(** The totals agree with the buckets. *)
Definition consistent (acc : stats) : Prop :=
  total_lines acc = sum_lines (ext_stats acc)
  /\ scanned_files acc = sum_files (ext_stats acc).

Definition skip_one (acc : stats) : stats :=
  {| ext_stats := ext_stats acc;
     scanned_files := scanned_files acc;
     scanned_dirs := scanned_dirs acc;
     skipped_files := skipped_files acc + 1;
     total_lines := total_lines acc;
     truncated := truncated acc |}.

Definition count_one (ext : string) (lines : Z) (acc : stats) : stats :=
  {| ext_stats :=
       update ext (fun b => {| b_files := b_files b + 1;
                               b_lines := b_lines b + lines |})
              (setdefault ext {| b_files := 0; b_lines := 0 |}
                          (ext_stats acc));
     scanned_files := scanned_files acc + 1;
     scanned_dirs := scanned_dirs acc;
     skipped_files := skipped_files acc;
     total_lines := total_lines acc + lines;
     truncated := truncated acc |}.

(** The record returned when the cap triggers at accumulator [acc]. *)
Definition cap_result (max_files : Z) (acc : stats) : stats :=
  {| ext_stats := ext_stats acc;
     scanned_files := max_files;
     scanned_dirs := scanned_dirs acc;
     skipped_files := skipped_files acc;
     total_lines := total_lines acc;
     truncated := true |}.

(** *** the eligible files of a tree *)

(** A file passes the checks made on it when its name survives the
    hidden-name filter, it is a regular file that is not a symbolic link, and
    it is neither binary nor too large. *)
Definition passes_checks (include_hidden : bool) (nf : string * file) : bool :=
  negb (should_skip_name (fst nf) include_hidden) && eligible (snd nf).

(** The number of files of the tree that pass all checks: those of the
    directories that are entered (not hidden, not beyond the depth bound, not
    reached through a link).  [depth] is the depth of [t] below the root. *)
Fixpoint eligible_files (max_depth : Z) (include_hidden : bool)
         (depth : nat) (t : tree) : Z :=
  match t with
  | Node walked nondirs subdirs =>
    if walked && (Z.of_nat depth <=? max_depth) then
      Z.of_nat (List.length (filter (passes_checks include_hidden) nondirs))
      + (fix below (ds : list (string * tree)) : Z :=
           match ds with
           | [] => 0
           | (d, sub) :: ds' =>
             (if should_skip_name d include_hidden then 0
              else eligible_files max_depth include_hidden (S depth) sub)
             + below ds'
           end) subdirs
    else 0
  end.

Definition eligible_below (max_depth : Z) (include_hidden : bool)
           (depth : nat) : list (string * tree) -> Z :=
  fix below (ds : list (string * tree)) : Z :=
    match ds with
    | [] => 0
    | (d, sub) :: ds' =>
      (if should_skip_name d include_hidden then 0
       else eligible_files max_depth include_hidden (S depth) sub)
      + below ds'
    end.

(** *** the depth bound *)

(** The tree without the contents of its directories at depth [k] and
    below: their files and their subdirectories are removed. *)
Fixpoint cut_below (k : nat) (t : tree) : tree :=
  match t with
  | Node walked nondirs subdirs =>
    match k with
    | O => Node walked [] []
    | S k' =>
      Node walked nondirs
           (map (fun ds => (fst ds, cut_below k' (snd ds))) subdirs)
    end
  end.

(** *** the ranking *)

(** The ranking of the report, in the words of its contract: more files
    first, then more lines, then the smaller extension name. *)
Definition ranks_before (g h : group) : Prop :=
  g_files g > g_files h
  \/ (g_files g = g_files h
      /\ (g_lines g > g_lines h
          \/ (g_lines g = g_lines h
              /\ String.leb (g_ext g) (g_ext h) = true))).

(** The bucket that a reported triple stands for: the extension with its
    file count and its line count, as [collect_stats] holds them. *)
Definition bucket_entry (g : group) : string * bucket :=
  (g_ext g, {| b_files := g_files g; b_lines := g_lines g |}).

(** *** names and lines *)

Fixpoint has_dot (s : string) : bool :=
  match s with
  | EmptyString => false
  | String c s' => Ascii.eqb c "." || has_dot s'
  end.

(** The number of lines that iterating over the text of a file with content
    [bs] yields, malformed sequences being dropped by the decoder. *)
Definition lines_in (bs : list byte) : Z :=
  Z.of_nat (List.length (text_lines (utf8_decode Ignore bs))).

(** The same count for a decoder that replaces malformed sequences by
    U+FFFD, as the specification words it. *)
Definition lines_in_replacing (bs : list byte) : Z :=
  Z.of_nat (List.length (text_lines (utf8_decode Replace bs))).

(** A byte that is an ASCII character other than LF and CR. *)
Definition plain (b : byte) : bool :=
  let n := Byte.to_N b in
  ((n <? 128) && negb (n =? LF) && negb (n =? CR))%N.

(** A byte that cannot start a UTF-8 sequence. *)
Definition invalid_start (b : byte) : bool :=
  let n := Byte.to_N b in
  ((128 <=? n) && (n <? 194) || (245 <=? n))%N.

Definition not_terminator (c : N) : bool :=
  (negb (c =? LF) && negb (c =? CR))%N.

(** ** Sample inputs *)

Definition text_file (content : list byte) : file :=
  {| is_file := true;
     is_symlink := false;
     st_size := Some (Z.of_nat (List.length content));
     read_rb := Some content;
     read_text := Some content |}.

(** [n] lines, each the letter x and a line feed. *)
Definition n_lines (n : nat) : list byte :=
  List.concat (repeat [x78; x0a] n).

(** Three Python files of 10, 20 and 30 lines and two Markdown files of 5
    lines each. *)
Definition flat_tree : tree :=
  Node true
       [("c.py", text_file (n_lines 30)); ("a.py", text_file (n_lines 10));
        ("y.md", text_file (n_lines 5)); ("b.py", text_file (n_lines 20));
        ("x.md", text_file (n_lines 5))]%string
       [].

Definition flat_stats : stats :=
  {| ext_stats := [("py", {| b_files := 3; b_lines := 60 |});
                   ("md", {| b_files := 2; b_lines := 10 |})]%string;
     scanned_files := 5;
     scanned_dirs := 1;
     skipped_files := 0;
     total_lines := 70;
     truncated := false |}.

Definition flat_stats_capped : stats :=
  {| ext_stats := [("py", {| b_files := 3; b_lines := 60 |});
                   ("md", {| b_files := 1; b_lines := 5 |})]%string;
     scanned_files := 4;
     scanned_dirs := 1;
     skipped_files := 0;
     total_lines := 65;
     truncated := true |}.

Definition binary_file : file :=
  {| is_file := true;
     is_symlink := false;
     st_size := Some 3;
     read_rb := Some [x50; x00; x4b];
     read_text := Some [x50; x00; x4b] |}.

Definition link_to_file : file :=
  {| is_file := true;
     is_symlink := true;
     st_size := Some 2;
     read_rb := Some [x78; x0a];
     read_text := Some [x78; x0a] |}.

Definition nested_tree : tree :=
  Node true
       [("main.py", text_file (n_lines 3)); (".env", text_file (n_lines 1));
        ("logo.bin", binary_file); ("link", link_to_file)]%string
       [("src",
         Node true [("lib.py", text_file (n_lines 2))]
              [("deep", Node true [("far.txt", text_file (n_lines 1))] [])]);
        (".git", Node true [("config", text_file (n_lines 4))] [])]%string.

Definition nested_stats_plain : stats :=
  {| ext_stats := [("py", {| b_files := 2; b_lines := 5 |});
                   ("txt", {| b_files := 1; b_lines := 1 |})]%string;
     scanned_files := 3;
     scanned_dirs := 3;
     skipped_files := 2;
     total_lines := 6;
     truncated := false |}.

Definition nested_stats_hidden : stats :=
  {| ext_stats := [("no_ext", {| b_files := 2; b_lines := 5 |});
                   ("py", {| b_files := 2; b_lines := 5 |});
                   ("txt", {| b_files := 1; b_lines := 1 |})]%string;
     scanned_files := 5;
     scanned_dirs := 4;
     skipped_files := 2;
     total_lines := 11;
     truncated := false |}.

(** One file, at [a/f.txt]: two path segments below the root. *)
Definition depth_tree : tree :=
  Node true []
       [("a", Node true [("f.txt", text_file (n_lines 1))] [])]%string.

(** A file that passes every check and can no longer be read when its lines
    are counted (removed or made unreadable in between, or failing past the
    sampled bytes). *)
Definition vanishing_file : file :=
  {| is_file := true;
     is_symlink := false;
     st_size := Some 2;
     read_rb := Some [x78; x0a];
     read_text := None |}.

Definition unstatable_file : file :=
  {| is_file := true;
     is_symlink := false;
     st_size := None;
     read_rb := Some [x78; x0a];
     read_text := Some [x78; x0a] |}.

Definition unopenable_file : file :=
  {| is_file := true;
     is_symlink := false;
     st_size := Some 2;
     read_rb := None;
     read_text := None |}.

Definition tied_stats : stats :=
  {| ext_stats := [("ts", {| b_files := 2; b_lines := 9 |});
                   ("go", {| b_files := 1; b_lines := 4 |});
                   ("js", {| b_files := 2; b_lines := 9 |});
                   ("c", {| b_files := 2; b_lines := 12 |});
                   ("md", {| b_files := 3; b_lines := 1 |})]%string;
     scanned_files := 10;
     scanned_dirs := 1;
     skipped_files := 0;
     total_lines := 35;
     truncated := false |}.

(** ** Further vocabulary *)

(** *** totals over a tree and over a walk *)

(** A total over the part of the tree that a scan enters: [dir_w] for every
    directory entered and [file_w] for every file that survives the
    hidden-name filter there. *)
Fixpoint tree_total (file_w : string * file -> Z) (dir_w : Z)
         (max_depth : Z) (include_hidden : bool)
         (depth : nat) (t : tree) : Z :=
  match t with
  | Node walked nondirs subdirs =>
    if walked && (Z.of_nat depth <=? max_depth) then
      dir_w
      + fold_right (fun nf s => file_w nf + s) 0
          (filter (fun nf => negb (should_skip_name (fst nf) include_hidden))
                  nondirs)
      + (fix below (ds : list (string * tree)) : Z :=
           match ds with
           | [] => 0
           | (d, sub) :: ds' =>
             (if should_skip_name d include_hidden then 0
              else tree_total file_w dir_w max_depth include_hidden
                              (S depth) sub)
             + below ds'
           end) subdirs
    else 0
  end.

Definition total_below (file_w : string * file -> Z) (dir_w : Z)
           (max_depth : Z) (include_hidden : bool) (depth : nat)
  : list (string * tree) -> Z :=
  fix below (ds : list (string * tree)) : Z :=
    match ds with
    | [] => 0
    | (d, sub) :: ds' =>
      (if should_skip_name d include_hidden then 0
       else tree_total file_w dir_w max_depth include_hidden (S depth) sub)
      + below ds'
    end.

(** The directories a scan enters. *)
Definition entered_dirs : Z -> bool -> nat -> tree -> Z :=
  tree_total (fun _ => 0) 1.

(** The files a scan visits and rejects: not regular, a link, unreadable,
    binary or too large. *)
Definition rejected_files : Z -> bool -> nat -> tree -> Z :=
  tree_total (fun nf => if eligible (snd nf) then 0 else 1) 0.

Definition event_total (file_w : string * file -> Z) (dir_w : Z)
           (evs : list event) : Z :=
  fold_right (fun ev s => match ev with
                          | EnterDir => dir_w
                          | Visit nf => file_w nf
                          end + s) 0 evs.

(** Every non-directory entry of the tree, entered or not. *)
Fixpoint all_files (t : tree) : list (string * file) :=
  match t with
  | Node _ nondirs subdirs =>
    nondirs
    ++ (fix below (ds : list (string * tree)) : list (string * file) :=
          match ds with
          | [] => []
          | (_, sub) :: ds' => all_files sub ++ below ds'
          end) subdirs
  end.

Definition all_files_below : list (string * tree) -> list (string * file) :=
  fix below (ds : list (string * tree)) : list (string * file) :=
    match ds with
    | [] => []
    | (_, sub) :: ds' => all_files sub ++ below ds'
    end.

(** *** trees that differ in what a scan does not look at *)

(** The tree without its entries whose name starts with a dot. *)
Fixpoint without_hidden (t : tree) : tree :=
  match t with
  | Node walked nondirs subdirs =>
    Node walked
         (filter (fun nf => negb (startswith_dot (fst nf))) nondirs)
         ((fix below (ds : list (string * tree)) : list (string * tree) :=
             match ds with
             | [] => []
             | (d, sub) :: ds' =>
               if startswith_dot d then below ds'
               else (d, without_hidden sub) :: below ds'
             end) subdirs)
  end.

Definition without_hidden_below
  : list (string * tree) -> list (string * tree) :=
  fix below (ds : list (string * tree)) : list (string * tree) :=
    match ds with
    | [] => []
    | (d, sub) :: ds' =>
      if startswith_dot d then below ds'
      else (d, without_hidden sub) :: below ds'
    end.

(** Two trees that hold the same entries, [scandir] listing the files of
    each directory in another order; file names are distinct within a
    directory and the directories keep their order. *)
#[local] Unset Elimination Schemes.
Inductive reordered : tree -> tree -> Prop :=
| reordered_node walked nondirs nondirs' subdirs subdirs' :
    Permutation nondirs nondirs' ->
    NoDup (map fst nondirs) ->
    Forall2 (fun a b => fst a = fst b /\ reordered (snd a) (snd b))
            subdirs subdirs' ->
    reordered (Node walked nondirs subdirs) (Node walked nondirs' subdirs').
#[local] Set Elimination Schemes.


(** Two trees with the same directories and the same file names, listed in
    the same order, whose files are pairwise treated alike. *)
#[local] Unset Elimination Schemes.
#[local] Set Elimination Schemes.

(** *** the buckets of a result *)

Definition well_formed_buckets (d : dict bucket) : Prop :=
  NoDup (map fst d)
  /\ Forall (fun kv => 1 <= b_files (snd kv) /\ 0 <= b_lines (snd kv)) d.

Definition sum_group_lines (gs : list group) : Z :=
  fold_right (fun g s => g_lines g + s) 0 gs.

(** *** lines of text *)

(** [ls] as the content of a file: every line followed by the terminator
    [term], then [tail]. *)
Definition joined {A : Type} (term : list A) (ls : list (list A))
           (tail : list A) : list A :=
  List.concat (map (fun l => l ++ term) ls) ++ tail.

(** ** The options of a run *)

(** *** str.strip() *)

(** The ASCII characters that [str.strip] removes: TAB to CR, FS to US and
    the space. *)
Definition is_space (c : ascii) : bool :=
  let n := N_of_ascii c in
  ((9 <=? n) && (n <=? 13) || (28 <=? n) && (n <=? 32))%N.

Fixpoint lstrip (s : string) : string :=
  match s with
  | String c s' => if is_space c then lstrip s' else s
  | EmptyString => EmptyString
  end.

Fixpoint rstrip (s : string) : string :=
  match s with
  | String c s' =>
    match rstrip s' with
    | EmptyString => if is_space c then EmptyString else String c EmptyString
    | r => String c r
    end
  | EmptyString => EmptyString
  end.

Definition strip (s : string) : string := rstrip (lstrip s).

(** A string of whitespace only. *)
Fixpoint blank (s : string) : bool :=
  match s with
  | String c s' => is_space c && blank s'
  | EmptyString => true
  end.

(** *** JSON values and int() *)

(** A Python float: not a number, an infinity, or the finite value
    [m * 2 ^ e]. *)
Inductive pyfloat :=
| FNaN
| FInf (negative : bool)
| FFinite (m e : Z).

(** A value as [json.loads] returns it. *)
#[local] Unset Elimination Schemes.
Inductive value :=
| VNone
| VBool (b : bool)
| VInt (z : Z)
| VFloat (x : pyfloat)
| VStr (s : string)
| VList (items : list value)
| VDict (items : list (string * value)).
#[local] Set Elimination Schemes.

(** The exceptions [int()] raises. *)
Inductive conv_error := TypeError | ValueError | OverflowError.

(** [int(x)] of a float: the value truncated towards zero. *)
Definition int_of_float (x : pyfloat) : Z + conv_error :=
  match x with
  | FNaN => inr ValueError
  | FInf _ => inr OverflowError
  | FFinite m e => inl (if 0 <=? e then m * 2 ^ e else Z.quot m (2 ^ (- e)))
  end.

Section Options.
(** [int(s)] of a str is a parameter: the integer, or [None] for
    ValueError. *)
Variable int_of_str : string -> option Z.

Definition py_int (v : value) : Z + conv_error :=
  match v with
  | VNone => inr TypeError
  | VBool b => inl (if b then 1 else 0)
  | VInt z => inl z
  | VFloat x => int_of_float x
  | VStr s => match int_of_str s with
              | Some z => inl z
              | None => inr ValueError
              end
  | VList _ => inr TypeError
  | VDict _ => inr TypeError
  end.

(** The right injection is an exception that leaves [to_int]. *)
Definition to_int (v : value) (default minimum maximum : Z)
  : Z + conv_error :=
  match v with
  | VNone => inl default
  | _ =>
    match py_int v with
    | inr TypeError => inl default
    | inr ValueError => inl default
    | inr OverflowError => inr OverflowError
    | inl parsed =>
      if parsed <? minimum then inl minimum
      else if parsed >? maximum then inl maximum
      else inl parsed
    end
  end.

End Options.

(** [x in {...}] for a set of strings. *)
Definition str_in (x : string) (xs : list string) : bool :=
  existsb (String.eqb x) xs.

Definition to_bool (v : value) (default : bool) : bool :=
  match v with
  | VNone => default
  | VBool b => b
  | VStr s =>
    let lowered := lower (strip s) in
    if str_in lowered ["1"; "true"; "yes"; "y"]%string then true
    else if str_in lowered ["0"; "false"; "no"; "n"]%string then false
    else default
  | _ => default
  end.

(** *** the entry point *)

Definition DEFAULT_MAX_DEPTH : Z := 6.
Definition DEFAULT_TOP_EXTENSIONS : Z := 10.
Definition DEFAULT_MAX_FILES : Z := 5000.

(** What the path operations of [main] find for a root when each of them
    returns: the resolved path as text, whether it exists, is a directory
    and lies in the workspace, and the tree below it. *)
Record located := {
  loc_path : string;
  loc_exists : bool;
  loc_is_dir : bool;
  loc_inside : bool;
  loc_tree : tree
}.

(** What [main] prints. *)
Inductive record :=
| ErrorRecord (error : string)
| OkRecord (out : output).

Inductive uncaught :=
| UncaughtConversion (e : conv_error)
| UncaughtOS (e : exn).

(** How [main] ends: with an exit status after printing one record, or with
    an exception that nothing catches. *)
Inductive ending :=
| Exit (status : Z) (printed : record)
| Traceback (e : uncaught).

Section Main.
(** The environment of a run: [json.loads] (the right injection is the
    message of the exception it raises), [int] on a str, [str] on a value
    that is not a str, the path resolution and the clock. *)
Variables (json_loads : string -> value + string)
          (int_of_str : string -> option Z)
          (str_of_other : value -> string)
          (resolve : string -> located)
          (now : string).

Definition parse_runtime_input (raw : string) : dict value + string :=
  match strip raw with
  | EmptyString => inl []
  | _ =>
    match json_loads raw with
    | inr err => inr err
    | inl (VDict data) => inl data
    | inl _ => inr "input must be a JSON object"%string
    end
  end.

Definition py_str (v : value) : string :=
  match v with
  | VStr s => s
  | _ => str_of_other v
  end.

(** [payload.get(key)] *)
Definition payload_get (payload : dict value) (key : string) : value :=
  match get key payload with
  | Some v => v
  | None => VNone
  end.

Definition main (input : string) : ending :=
  match parse_runtime_input input with
  | inr err => Exit 1 (ErrorRecord ("invalid input: " ++ err))
  | inl payload =>
    let root_value :=
      strip (py_str (match get "root" payload with
                     | Some v => v
                     | None => VStr EmptyString
                     end)) in
    let scan_root := resolve root_value in
    if negb (loc_exists scan_root) || negb (loc_is_dir scan_root) then
      Exit 1 (ErrorRecord ("root not found: " ++ loc_path scan_root))
    else if negb (loc_inside scan_root) then
      Exit 1 (ErrorRecord "root must stay within workspace")
    else
      match to_int int_of_str (payload_get payload "max_depth")
                   DEFAULT_MAX_DEPTH 1 32 with
      | inr e => Traceback (UncaughtConversion e)
      | inl max_depth =>
        match to_int int_of_str (payload_get payload "top_extensions")
                     DEFAULT_TOP_EXTENSIONS 1 50 with
        | inr e => Traceback (UncaughtConversion e)
        | inl top_extensions =>
          match to_int int_of_str (payload_get payload "max_files")
                       DEFAULT_MAX_FILES 1 20000 with
          | inr e => Traceback (UncaughtConversion e)
          | inl max_files =>
            let include_hidden :=
              to_bool (payload_get payload "include_hidden") false in
            match collect_stats max_depth include_hidden max_files
                                (loc_tree scan_root) with
            | Raised e => Traceback (UncaughtOS e)
            | Returned stats =>
              Exit 0 (OkRecord (build_output (loc_path scan_root) now stats
                                             top_extensions))
            end
          end
        end
      end
  end.

End Main.

(** ** The image generator: names and job configuration *)

(** *** re.sub and str.strip(chars) on one class of characters *)

(** [re.sub("[class]+", "-", s)]: every maximal run of characters of the
    class becomes one dash.  [in_run] tells that the previous character was
    in the class. *)
Fixpoint sub_runs (class : ascii -> bool) (in_run : bool) (s : string)
  : string :=
  match s with
  | EmptyString => EmptyString
  | String c s' =>
    if class c then
      if in_run then sub_runs class true s'
      else String "-" (sub_runs class true s')
    else String c (sub_runs class false s')
  end.

Definition is_dash (c : ascii) : bool := Ascii.eqb c "-".

(** [re.sub("-{2,}", "-", s)]: a run of two dashes or more becomes one
    dash, a single dash stays. *)
Fixpoint sub_dashes (in_run : bool) (s : string) : string :=
  match s with
  | EmptyString => EmptyString
  | String c s' =>
    if is_dash c then
      if in_run then sub_dashes true s'
      else String c (sub_dashes true s')
    else String c (sub_dashes false s')
  end.

Fixpoint lstrip_class (class : ascii -> bool) (s : string) : string :=
  match s with
  | String c s' => if class c then lstrip_class class s' else s
  | EmptyString => EmptyString
  end.

Fixpoint rstrip_class (class : ascii -> bool) (s : string) : string :=
  match s with
  | String c s' =>
    match rstrip_class class s' with
    | EmptyString => if class c then EmptyString else String c EmptyString
    | r => String c r
    end
  | EmptyString => EmptyString
  end.

Definition strip_class (class : ascii -> bool) (s : string) : string :=
  rstrip_class class (lstrip_class class s).

(** The class [a-z0-9]. *)
Definition is_slug_char (c : ascii) : bool :=
  let n := N_of_ascii c in
  ((97 <=? n) && (n <=? 122) || (48 <=? n) && (n <=? 57))%N.

Definition sanitize_slug (text : string) : string :=
  let text := lower (strip text) in
  let text := sub_runs (fun c => negb (is_slug_char c)) false text in
  let text := strip_class is_dash (sub_dashes false text) in
  match text with
  | EmptyString => "image"%string
  | _ => text
  end.

(** The shape of a slug: letters a-z, digits and dashes only. *)
Fixpoint slug_chars (s : string) : bool :=
  match s with
  | EmptyString => true
  | String c s' => (is_slug_char c || is_dash c) && slug_chars s'
  end.

(** No two dashes in a row, and no dash at the end; with [after_dash], no
    dash at the start either. *)
Fixpoint dashes_separate (after_dash : bool) (s : string) : bool :=
  match s with
  | EmptyString => negb after_dash
  | String c s' =>
    if is_dash c then negb after_dash && dashes_separate true s'
    else dashes_separate false s'
  end.

(** No two dashes in a row; with [after_dash], no dash at the start. *)
Fixpoint no_double_dash (after_dash : bool) (s : string) : bool :=
  match s with
  | EmptyString => true
  | String c s' =>
    if is_dash c then negb after_dash && no_double_dash true s'
    else no_double_dash false s'
  end.

(** *** the job configuration *)

(** The arguments of the command line (an [argparse.Namespace]). *)
Record cli_args := {
  a_prompt : string;
  a_count : Z;
  a_model : string;
  a_size : string;
  a_quality : string;
  a_background : string;
  a_output_format : string;
  a_style : string;
  a_out_dir : string;
  a_input : string
}.

Record JobConfig := {
  model : string;
  size : string;
  quality : string;
  background : string;
  output_format : string;
  style : string;
  count : Z;
  out_dir : string;
  prompt : string
}.

(** The entries [size] and [quality] of [MODEL_DEFAULTS]. *)
Definition MODEL_DEFAULTS : dict (string * string) :=
  [("gpt-image-1", ("1024x1024", "high"));
   ("gpt-image-1-mini", ("1024x1024", "medium"));
   ("gpt-image-1.5", ("1024x1024", "high"));
   ("dall-e-3", ("1024x1024", "standard"));
   ("dall-e-2", ("1024x1024", "standard"))]%string.

Definition GPT_IMAGE_MODELS : list string :=
  ["gpt-image-1"; "gpt-image-1-mini"; "gpt-image-1.5"]%string.

(** [x or y] on strings. *)
Definition str_or (x y : string) : string :=
  match x with
  | EmptyString => y
  | _ => x
  end.

Section Job.
(** [choose_output_dir] reads the clock and the home directory: it is a
    parameter.  [int] on a str and [str] on a value that is not a str are
    parameters as above; [json.loads] returns the value or the message of
    its JSONDecodeError. *)
Variables (choose_output_dir : string -> string)
          (json_loads : string -> value + string)
          (int_of_str : string -> option Z)
          (str_of_other : value -> string).

(** The configuration, with the warnings written to the error stream. *)
Definition build_job_config (args : cli_args) : list string * JobConfig :=
  let model := strip (a_model args) in
  let defaults :=
    match get model MODEL_DEFAULTS with
    | Some d => d
    | None => ("1024x1024", "high")%string
    end in
  let count := Z.max 1 (a_count args) in
  let (warnings, count) :=
    if String.eqb model "dall-e-3" && (count >? 1)
    then (["warning: dall-e-3 supports one image per request; forcing count=1"%string], 1)
    else ([], count) in
  (warnings,
   {| model := model;
      size := str_or (strip (a_size args)) (fst defaults);
      quality := str_or (strip (a_quality args)) (snd defaults);
      background := strip (a_background args);
      output_format := strip (a_output_format args);
      style := strip (a_style args);
      count := count;
      out_dir := choose_output_dir (a_out_dir args);
      prompt := strip (a_prompt args) |}).

Definition infer_extension (cfg : JobConfig) : string :=
  if str_in (model cfg) GPT_IMAGE_MODELS
     && negb (String.eqb (output_format cfg) EmptyString)
  then output_format cfg
  else "png"%string.

(** How [apply_runtime_input] ends: it returns a flag and leaves the
    arguments updated, raises ValueError with a message, or lets another
    exception of [int] pass. *)
Inductive applied :=
| Applied (runtime_mode : bool) (args : cli_args)
| InvalidInput (message : string)
| Escaped (e : conv_error).

Definition is_empty (s : string) : bool := String.eqb s EmptyString.

Definition has_key (key : string) (payload : dict value) : bool :=
  match get key payload with
  | Some _ => true
  | None => false
  end.

Definition apply_runtime_input (args : cli_args) : applied :=
  let raw := strip (a_input args) in
  if is_empty raw then Applied false args
  else
    match json_loads raw with
    | inr err => InvalidInput ("invalid --input JSON: " ++ err)
    | inl (VDict payload) =>
      let item key := py_str str_of_other (payload_get payload key) in
      let prompt :=
        if has_key "prompt" payload && is_empty (a_prompt args)
        then item "prompt"%string else a_prompt args in
      let model :=
        if has_key "model" payload && String.eqb (a_model args) "gpt-image-1"
        then item "model"%string else a_model args in
      let size :=
        if has_key "size" payload && is_empty (a_size args)
        then item "size"%string else a_size args in
      let quality :=
        if has_key "quality" payload && is_empty (a_quality args)
        then item "quality"%string else a_quality args in
      let background :=
        if has_key "background" payload && is_empty (a_background args)
        then item "background"%string else a_background args in
      let output_format :=
        if has_key "output_format" payload
           && is_empty (a_output_format args)
        then item "output_format"%string else a_output_format args in
      let style :=
        if has_key "style" payload && is_empty (a_style args)
        then item "style"%string else a_style args in
      let out_dir :=
        if has_key "out_dir" payload && is_empty (a_out_dir args)
        then item "out_dir"%string else a_out_dir args in
      let finish count :=
        Applied true
                {| a_prompt := prompt;
                   a_count := count;
                   a_model := model;
                   a_size := size;
                   a_quality := quality;
                   a_background := background;
                   a_output_format := output_format;
                   a_style := style;
                   a_out_dir := out_dir;
                   a_input := a_input args |} in
      if has_key "count" payload then
        match py_int int_of_str (payload_get payload "count") with
        | inl n => finish n
        | inr TypeError => InvalidInput "count must be an integer"
        | inr ValueError => InvalidInput "count must be an integer"
        | inr OverflowError => Escaped OverflowError
        end
      else if a_count args =? 6 then finish 1
      else finish (a_count args)
    | inl _ => InvalidInput "--input must be a JSON object"
    end.

End Job.

(** ** Further sample inputs *)

(** 2048 letters followed by a NUL byte. *)
Definition late_nul_file : file :=
  {| is_file := true;
     is_symlink := false;
     st_size := Some 2049;
     read_rb := Some (repeat x78 2048 ++ [x00]);
     read_text := Some (repeat x78 2048 ++ [x00]) |}.

(** [flat_tree] with its files listed in another order. *)
Definition flat_tree_relisted : tree :=
  Node true
       [("x.md", text_file (n_lines 5)); ("b.py", text_file (n_lines 20));
        ("a.py", text_file (n_lines 10)); ("c.py", text_file (n_lines 30));
        ("y.md", text_file (n_lines 5))]%string
       [].



(** A workspace whose root is [flat_tree], and two inputs as [json.loads]
    reads them: one asks for 4 files and 99 groups, the other for infinitely
    many files. *)
Definition sample_resolve (root : string) : located :=
  {| loc_path := "/w";
     loc_exists := true;
     loc_is_dir := true;
     loc_inside := true;
     loc_tree := flat_tree |}.

Definition sample_payload (raw : string) : value + string :=
  inl (VDict [("max_files", VInt 4); ("top_extensions", VInt 99)]%string).

Definition sample_payload_infinite (raw : string) : value + string :=
  inl (VDict [("max_files", VFloat (FInf false))]%string).

Definition sample_int_of_str (s : string) : option Z := None.

Definition sample_str_of_other (v : value) : string := "None".

(** Arguments of the image generator as the command line leaves them when
    only a prompt is given, and an input that names another prompt, another
    model and a size. *)
Definition sample_args : cli_args :=
  {| a_prompt := "cat";
     a_count := 6;
     a_model := "gpt-image-1";
     a_size := EmptyString;
     a_quality := EmptyString;
     a_background := EmptyString;
     a_output_format := EmptyString;
     a_style := EmptyString;
     a_out_dir := EmptyString;
     a_input := "payload" |}.

Definition sample_job_payload : dict value :=
  [("prompt", VStr "dog"); ("model", VStr "dall-e-3");
   ("size", VStr "512x512")]%string.

Definition sample_job_loads (raw : string) : value + string :=
  inl (VDict sample_job_payload).

Definition sample_args_applied : cli_args :=
  {| a_prompt := "cat";
     a_count := 1;
     a_model := "dall-e-3";
     a_size := "512x512";
     a_quality := EmptyString;
     a_background := EmptyString;
     a_output_format := EmptyString;
     a_style := EmptyString;
     a_out_dir := EmptyString;
     a_input := "payload" |}.

Definition sample_choose_output_dir (explicit : string) : string := "out".

(** ** Reasoning principles *)

(** Induction on a directory tree, with the hypothesis for every
    subdirectory. *)
Fixpoint tree_ind (P : tree -> Prop)
  (step : forall walked nondirs subdirs,
      Forall (fun ds => P (snd ds)) subdirs -> P (Node walked nondirs subdirs))
  (t : tree) : P t :=
  match t with
  | Node walked nondirs subdirs =>
    step walked nondirs subdirs
         ((fix all (l : list (string * tree))
             : Forall (fun ds => P (snd ds)) l :=
             match l with
             | [] => Forall_nil _
             | ds :: l' =>
               Forall_cons ds (tree_ind P step (snd ds)) (all l')
             end) subdirs)
  end.

(** *** the walk and its events *)

Section EventFacts.
Variables (max_depth : Z) (include_hidden : bool) (max_files : Z).

Lemma walk_unfold rel walked nondirs subdirs acc :
  walk max_depth include_hidden max_files rel (Node walked nondirs subdirs) acc
  = if negb walked then Continue acc
    else if negb (within_depth rel max_depth) then Continue acc
    else match scan_files max_files (listed_files include_hidden nondirs)
                          (enter_dir acc) with
         | Continue acc1 =>
           walk_dirs max_depth include_hidden max_files rel subdirs acc1
         | stop => stop
         end.
Proof. reflexivity. Qed.

Lemma events_unfold rel walked nondirs subdirs :
  events max_depth include_hidden rel (Node walked nondirs subdirs)
  = if negb walked then []
    else if negb (within_depth rel max_depth) then []
    else EnterDir :: map Visit (listed_files include_hidden nondirs)
         ++ events_dirs max_depth include_hidden rel subdirs.
Proof. reflexivity. Qed.

Lemma run_app evs1 evs2 acc :
  run max_files (evs1 ++ evs2) acc
  = match run max_files evs1 acc with
    | Continue acc' => run max_files evs2 acc'
    | stop => stop
    end.
Proof.
  revert acc. induction evs1 as [|ev evs1 IH]; intros acc; simpl.
  - reflexivity.
  - destruct (step max_files ev acc); auto.
Qed.

Lemma run_visits fs acc :
  run max_files (map Visit fs) acc = scan_files max_files fs acc.
Proof.
  revert acc. induction fs as [|nf fs IH]; intros acc; simpl.
  - reflexivity.
  - destruct (scan_file max_files nf acc); auto.
Qed.

(** The loop over the walk is the loop over its events. *)
Lemma walk_run t : forall rel acc,
  walk max_depth include_hidden max_files rel t acc
  = run max_files (events max_depth include_hidden rel t) acc.
Proof.
  induction t as [walked nondirs subdirs IH] using tree_ind.
  intros rel acc. rewrite walk_unfold, events_unfold.
  destruct walked; simpl negb; cbv iota; [|reflexivity].
  destruct (within_depth rel max_depth); simpl negb; cbv iota; [|reflexivity].
  change (run max_files (EnterDir :: ?l) acc)
    with (run max_files l (enter_dir acc)).
  rewrite run_app, run_visits.
  destruct (scan_files max_files _ (enter_dir acc)) as [acc1| |]; auto.
  clear acc. revert acc1.
  induction subdirs as [|[d sub] ds IHds]; intros acc1; simpl.
  - reflexivity.
  - inversion IH as [|? ? Hsub Hds]; subst. simpl in Hsub.
    destruct (should_skip_name d include_hidden); [auto|].
    rewrite run_app, <- Hsub.
    destruct (walk _ _ _ _ sub acc1); auto.
Qed.

End EventFacts.

(** *** counting and the consistency of the totals *)

Lemma counted_nil : counted [] = 0.
Proof. reflexivity. Qed.

Lemma counted_cons ev evs :
  counted (ev :: evs) = (if counts ev then 1 else 0) + counted evs.
Proof.
  unfold counted. simpl. destruct (counts ev); simpl List.length; lia.
Qed.

Lemma counted_app evs1 evs2 :
  counted (evs1 ++ evs2) = counted evs1 + counted evs2.
Proof.
  unfold counted. rewrite filter_app, length_app. lia.
Qed.

Lemma counted_nonneg evs : 0 <= counted evs.
Proof. unfold counted. lia. Qed.

Lemma counted_perm evs1 evs2 :
  Permutation evs1 evs2 -> counted evs1 = counted evs2.
Proof.
  intros H. unfold counted. f_equal.
  induction H; simpl.
  - reflexivity.
  - destruct (counts x); simpl; congruence.
  - destruct (counts x), (counts y); reflexivity.
  - congruence.
Qed.

Lemma sum_bump ext lines (d : dict bucket) :
  let d' := update ext (fun b => {| b_files := b_files b + 1;
                                    b_lines := b_lines b + lines |})
                   (setdefault ext {| b_files := 0; b_lines := 0 |} d) in
  sum_lines d' = sum_lines d + lines /\ sum_files d' = sum_files d + 1.
Proof.
  induction d as [|[k b] d IH]; simpl.
  - rewrite String.eqb_refl. simpl. lia.
  - destruct (String.eqb k ext) eqn:E; simpl; rewrite E; simpl.
    + lia.
    + simpl in IH. lia.
Qed.

Lemma consistent_empty : consistent empty_stats.
Proof. split; reflexivity. Qed.

Lemma consistent_skip acc : consistent acc -> consistent (skip_one acc).
Proof. intros H. exact H. Qed.

Lemma consistent_count ext lines acc :
  consistent acc -> consistent (count_one ext lines acc).
Proof.
  intros [Hl Hf]. pose proof (sum_bump ext lines (ext_stats acc)) as [Sl Sf].
  split; simpl; lia.
Qed.

Lemma consistent_enter acc : consistent acc -> consistent (enter_dir acc).
Proof. intros H. exact H. Qed.

Lemma consistent_cap max_files acc :
  consistent acc ->
  total_lines (cap_result max_files acc)
  = sum_lines (ext_stats (cap_result max_files acc)).
Proof. intros [Hl _]. exact Hl. Qed.

Section Accounting.
Variables (max_files : Z).

(** The three ways one file leaves the body of the inner loop. *)
Lemma scan_file_cases name f acc :
  (eligible f = false
   /\ scan_file max_files (name, f) acc = Continue (skip_one acc))
  \/ (eligible f = true /\ scanned_files acc + 1 > max_files
      /\ scan_file max_files (name, f) acc
         = Return (cap_result max_files acc))
  \/ (eligible f = true /\ scanned_files acc + 1 <= max_files
      /\ match line_count f with
         | Returned lines =>
           scan_file max_files (name, f) acc
           = Continue (count_one (normalize_ext name) lines acc)
         | Raised e => scan_file max_files (name, f) acc = Raise e
         end).
Proof.
  unfold scan_file, eligible.
  destruct (is_file f), (is_symlink f); simpl; auto.
  destruct (is_binary_or_too_large f); simpl; auto.
  right. destruct (Z.gtb_spec (scanned_files acc + 1) max_files).
  - left. repeat split; auto. lia.
  - right. repeat split; auto. destruct (line_count f); reflexivity.
Qed.

Lemma step_Continue ev acc acc' :
  step max_files ev acc = Continue acc' ->
  scanned_files acc' = scanned_files acc + (if counts ev then 1 else 0)
  /\ truncated acc' = truncated acc
  /\ (counts ev = true -> scanned_files acc' <= max_files)
  /\ (consistent acc -> consistent acc').
Proof.
  destruct ev as [|[name f]]; unfold step, counts, snd.
  - intros [= <-]. split; [|split; [|split]]; simpl; auto; try lia.
  - destruct (scan_file_cases name f acc)
      as [[E ->]|[[E [_ ->]]|[E [L H]]]]; rewrite E.
    + intros [= <-]. split; [|split; [|split]]; simpl; auto; try lia.
    + discriminate.
    + destruct (line_count f) as [lines|e]; rewrite H; [|discriminate].
      intros [= <-]. split; [|split; [|split]]; simpl; auto.
      apply consistent_count.
Qed.

Lemma step_Return ev acc r :
  step max_files ev acc = Return r ->
  counts ev = true /\ scanned_files acc + 1 > max_files
  /\ r = cap_result max_files acc.
Proof.
  destruct ev as [|[name f]]; unfold step, counts, snd; [discriminate|].
  destruct (scan_file_cases name f acc)
    as [[E ->]|[[E [G ->]]|[E [L H]]]].
  - discriminate.
  - intros [= <-]. auto.
  - destruct (line_count f); rewrite H; discriminate.
Qed.

Lemma run_Continue evs : forall acc acc',
  run max_files evs acc = Continue acc' ->
  scanned_files acc' = scanned_files acc + counted evs
  /\ truncated acc' = truncated acc
  /\ (0 < counted evs -> scanned_files acc' <= max_files)
  /\ (consistent acc -> consistent acc').
Proof.
  induction evs as [|ev evs IH]; intros acc acc'; simpl.
  - intros [= <-]. rewrite counted_nil.
    split; [|split; [|split]]; auto; lia.
  - destruct (step max_files ev acc) as [acc1| |] eqn:S; try discriminate.
    intros R. apply step_Continue in S as (S1 & S2 & S3 & S4).
    apply IH in R as (R1 & R2 & R3 & R4).
    rewrite counted_cons. pose proof (counted_nonneg evs).
    split; [|split; [|split]]; auto; try lia; try congruence.
    intros Hpos. destruct (Z.eq_dec (counted evs) 0) as [Z0|NZ].
    + destruct (counts ev); [|lia]. specialize (S3 eq_refl). lia.
    + apply R3. lia.
Qed.

(** A scan that returns early returns at some eligible file, from the
    accumulator reached just before it. *)
Lemma run_Return evs : forall acc r,
  run max_files evs acc = Return r ->
  exists pre nf post a,
    evs = pre ++ Visit nf :: post
    /\ eligible (snd nf) = true
    /\ run max_files pre acc = Continue a
    /\ scanned_files a + 1 > max_files
    /\ r = cap_result max_files a.
Proof.
  induction evs as [|ev evs IH]; intros acc r; simpl; [discriminate|].
  destruct (step max_files ev acc) as [acc1|r1|] eqn:S; try discriminate.
  - intros R. apply IH in R as (pre & nf & post & a & E & El & Rp & G & Er).
    exists (ev :: pre), nf, post, a. subst evs. simpl. rewrite S. auto.
  - intros [= <-]. apply step_Return in S as (C & G & Er).
    destruct ev as [|nf]; [discriminate|].
    exists [], nf, evs, acc. auto.
Qed.

(** What comes after the file that triggers the cap is never looked at. *)
Lemma run_stops pre nf post a :
  run max_files pre empty_stats = Continue a ->
  eligible (snd nf) = true ->
  scanned_files a + 1 > max_files ->
  run max_files (pre ++ Visit nf :: post) empty_stats
  = Return (cap_result max_files a).
Proof.
  intros Rp El G. rewrite run_app, Rp. simpl.
  destruct nf as [name f].
  destruct (scan_file_cases name f a)
    as [[E _]|[[_ [_ ->]]|[_ [L _]]]]; simpl in El.
  - congruence.
  - reflexivity.
  - lia.
Qed.

End Accounting.

(** *** the stable sort *)

Section SortFacts.
Context {A : Type} (le : A -> A -> bool).

Lemma insert_sorted_perm x l : Permutation (insert_sorted le x l) (x :: l).
Proof.
  induction l as [|y l IH]; simpl.
  - apply Permutation_refl.
  - destruct (le x y).
    + apply Permutation_refl.
    + eapply Permutation_trans; [apply perm_skip, IH|apply perm_swap].
Qed.

Lemma sort_perm l : Permutation (sort le l) l.
Proof.
  induction l as [|x l IH]; simpl.
  - apply Permutation_refl.
  - eapply Permutation_trans; [apply insert_sorted_perm|].
    apply perm_skip, IH.
Qed.

Hypothesis le_total : forall x y, le x y = true \/ le y x = true.
Hypothesis le_trans :
  forall x y z, le x y = true -> le y z = true -> le x z = true.

Let R (x y : A) : Prop := le x y = true.

Lemma insert_sorted_sorted x l :
  StronglySorted R l -> StronglySorted R (insert_sorted le x l).
Proof.
  induction 1 as [|y l Hl IH Hy]; simpl.
  - constructor; constructor.
  - destruct (le x y) eqn:E.
    + constructor; [constructor; assumption|].
      constructor; [exact E|].
      eapply Forall_impl; [|exact Hy].
      intros z Hz. exact (le_trans _ _ _ E Hz).
    + constructor; [exact IH|].
      eapply Permutation_Forall;
        [apply Permutation_sym, insert_sorted_perm|].
      constructor; [|exact Hy].
      destruct (le_total x y) as [Hxy|Hyx]; [congruence|exact Hyx].
Qed.

Lemma sort_sorted l : StronglySorted R (sort le l).
Proof.
  induction l as [|x l IH]; simpl.
  - constructor.
  - apply insert_sorted_sorted, IH.
Qed.

Hypothesis le_antisym : forall x y, le x y = true -> le y x = true -> x = y.

(** An antisymmetric order leaves one sorted arrangement only. *)
Lemma sorted_unique l1 : forall l2,
  Permutation l1 l2 -> StronglySorted R l1 -> StronglySorted R l2 -> l1 = l2.
Proof.
  induction l1 as [|a l1 IH]; intros l2 P S1 S2.
  - apply Permutation_nil in P. congruence.
  - destruct l2 as [|b l2].
    + apply Permutation_sym, Permutation_nil in P. discriminate.
    + apply StronglySorted_inv in S1 as [S1 F1].
      apply StronglySorted_inv in S2 as [S2 F2].
      assert (a = b) as <-.
      { assert (In a (b :: l2)) as Ia
          by (eapply Permutation_in; [exact P|left; reflexivity]).
        assert (In b (a :: l1)) as Ib
          by (eapply Permutation_in;
              [apply Permutation_sym; exact P|left; reflexivity]).
        destruct Ia as [->|Ia]; [reflexivity|].
        destruct Ib as [->|Ib]; [reflexivity|].
        rewrite Forall_forall in F1, F2.
        apply le_antisym; [apply F1, Ib|apply F2, Ia]. }
      f_equal. apply IH; auto.
      eapply Permutation_cons_inv; exact P.
Qed.

End SortFacts.

(** *** the order of strings and of sort keys *)

Lemma string_compare_trans s1 : forall s2 s3,
  String.compare s1 s2 <> Gt -> String.compare s2 s3 <> Gt ->
  String.compare s1 s3 <> Gt.
Proof.
  induction s1 as [|a s1 IH]; intros [|b s2] [|c s3]; simpl;
    try congruence.
  unfold Ascii.compare.
  destruct (N.compare_spec (N_of_ascii a) (N_of_ascii b)),
           (N.compare_spec (N_of_ascii b) (N_of_ascii c)),
           (N.compare_spec (N_of_ascii a) (N_of_ascii c));
    try congruence; try lia.
  apply IH.
Qed.

Lemma string_leb_trans s1 s2 s3 :
  String.leb s1 s2 = true -> String.leb s2 s3 = true ->
  String.leb s1 s3 = true.
Proof.
  unfold String.leb. intros H1 H2.
  pose proof (string_compare_trans s1 s2 s3) as T.
  destruct (String.compare s1 s2), (String.compare s2 s3),
           (String.compare s1 s3); try discriminate; try reflexivity;
    exfalso; apply T; congruence.
Qed.

Lemma name_le_total a b : name_le a b = true \/ name_le b a = true.
Proof. apply String.leb_total. Qed.

Lemma rank_le_iff g h : rank_le g h = true <-> ranks_before g h.
Proof.
  unfold rank_le, ranks_before, rank_key, key_compare, String.leb.
  destruct (Z.compare_spec (- g_files g) (- g_files h));
    [destruct (Z.compare_spec (- g_lines g) (- g_lines h))|..].
  - destruct (String.compare (g_ext g) (g_ext h));
      split; intros; try discriminate; try reflexivity;
      try (right; split; [lia|right; split; [lia|reflexivity]]).
    destruct H1 as [|[_ [|[_ ?]]]]; first [lia|discriminate].
  - split; [intros _; right; split; [lia|left; lia]|reflexivity].
  - split; [discriminate|]. intros [|[_ [|[? _]]]]; lia.
  - split; [intros _; left; lia|reflexivity].
  - split; [discriminate|]. intros [|[? _]]; lia.
Qed.

Lemma rank_le_total g h : rank_le g h = true \/ rank_le h g = true.
Proof.
  rewrite !rank_le_iff. unfold ranks_before.
  destruct (Z.lt_total (g_files g) (g_files h)) as [|[|]];
    destruct (Z.lt_total (g_lines g) (g_lines h)) as [|[|]];
    destruct (String.leb_total (g_ext g) (g_ext h));
    intuition lia.
Qed.

Lemma rank_le_trans g h k :
  rank_le g h = true -> rank_le h k = true -> rank_le g k = true.
Proof.
  rewrite !rank_le_iff. unfold ranks_before.
  intros H1 H2.
  assert (String.leb (g_ext g) (g_ext h) = true ->
          String.leb (g_ext h) (g_ext k) = true ->
          String.leb (g_ext g) (g_ext k) = true) as T
    by apply string_leb_trans.
  destruct (Z.lt_total (g_files g) (g_files h)) as [|[|]];
    destruct (Z.lt_total (g_files h) (g_files k)) as [|[|]];
    destruct (Z.lt_total (g_lines g) (g_lines h)) as [|[|]];
    destruct (Z.lt_total (g_lines h) (g_lines k)) as [|[|]];
    intuition lia.
Qed.

Lemma rank_le_antisym g h :
  rank_le g h = true -> rank_le h g = true -> g = h.
Proof.
  rewrite !rank_le_iff. unfold ranks_before. intros H1 H2.
  destruct g as [e1 f1 l1], h as [e2 f2 l2]; simpl in *.
  assert (f1 = f2) as -> by lia. assert (l1 = l2) as -> by lia.
  f_equal. apply String.leb_antisym.
  - destruct H1 as [|[_ [|[_ ?]]]]; first [lia|assumption].
  - destruct H2 as [|[_ [|[_ ?]]]]; first [lia|assumption].
Qed.

(** *** a scan is the run of its events *)

Lemma collect_stats_run max_depth include_hidden max_files scan_root :
  collect_stats max_depth include_hidden max_files scan_root
  = match run max_files (events max_depth include_hidden [] scan_root)
              empty_stats with
    | Continue acc => Returned acc
    | Return r => Returned r
    | Raise e => Raised e
    end.
Proof. unfold collect_stats. rewrite walk_run. reflexivity. Qed.

(** Of the calls whose outcome a [file] records, only the text-mode read can
    make a scan fail: a scan of a tree whose visited files can all be read
    returns a result. *)
Lemma run_returns max_files evs : forall acc,
  Forall (fun ev => match ev with
                    | EnterDir => True
                    | Visit nf => read_text (snd nf) <> None
                    end) evs ->
  exists r, run max_files evs acc = Continue r
            \/ run max_files evs acc = Return r.
Proof.
  induction evs as [|ev evs IH]; intros acc H; simpl.
  - exists acc. left. reflexivity.
  - inversion H as [|? ? Hev Hevs]; subst.
    destruct ev as [|[name f]]; cbn [step].
    + apply IH, Hevs.
    + destruct (scan_file_cases max_files name f acc)
        as [[_ ->]|[[_ [_ ->]]|[_ [_ L]]]].
      * apply IH, Hevs.
      * eexists. right. reflexivity.
      * unfold line_count in L. simpl in Hev.
        destruct (read_text f); [|congruence].
        rewrite L. apply IH, Hevs.
Qed.

Lemma collect_stats_returns max_depth include_hidden max_files scan_root :
  Forall (fun ev => match ev with
                    | EnterDir => True
                    | Visit nf => read_text (snd nf) <> None
                    end) (events max_depth include_hidden [] scan_root) ->
  exists r,
    collect_stats max_depth include_hidden max_files scan_root = Returned r.
Proof.
  intros H. rewrite collect_stats_run.
  destruct (run_returns max_files _ empty_stats H) as [r [-> | ->]];
    exists r; reflexivity.
Qed.

(** *** the eligible files and the events *)

Lemma eligible_files_unfold max_depth include_hidden depth
      walked nondirs subdirs :
  eligible_files max_depth include_hidden depth (Node walked nondirs subdirs)
  = if walked && (Z.of_nat depth <=? max_depth) then
      Z.of_nat (List.length (filter (passes_checks include_hidden) nondirs))
      + eligible_below max_depth include_hidden depth subdirs
    else 0.
Proof. reflexivity. Qed.

Lemma counted_visits fs :
  counted (map Visit fs)
  = Z.of_nat (List.length (filter (fun nf => eligible (snd nf)) fs)).
Proof.
  unfold counted. f_equal.
  induction fs as [|nf fs IH]; simpl; [reflexivity|].
  destruct (eligible (snd nf)); simpl; congruence.
Qed.

Lemma counted_listed include_hidden nondirs :
  counted (map Visit (listed_files include_hidden nondirs))
  = Z.of_nat (List.length (filter (passes_checks include_hidden) nondirs)).
Proof.
  unfold listed_files.
  rewrite (counted_perm _ (map Visit
    (filter (fun nf => negb (should_skip_name (fst nf) include_hidden))
            nondirs))) by (apply Permutation_map, sort_perm).
  rewrite counted_visits. f_equal.
  induction nondirs as [|nf fs IH]; simpl; [reflexivity|].
  unfold passes_checks at 1.
  destruct (should_skip_name (fst nf) include_hidden); simpl; [exact IH|].
  destruct (eligible (snd nf)); simpl; congruence.
Qed.

Lemma counted_events max_depth include_hidden t : forall rel,
  counted (events max_depth include_hidden rel t)
  = eligible_files max_depth include_hidden (List.length rel) t.
Proof.
  induction t as [walked nondirs subdirs IH] using tree_ind.
  intros rel. rewrite events_unfold, eligible_files_unfold.
  unfold within_depth.
  destruct walked; simpl negb; simpl andb; cbv iota; [|reflexivity].
  destruct (Z.of_nat (List.length rel) <=? max_depth); simpl negb; cbv iota;
    [|reflexivity].
  rewrite counted_cons, counted_app, counted_listed. simpl counts. cbv iota.
  rewrite Z.add_0_l. f_equal.
  induction subdirs as [|[d sub] ds IHds]; simpl.
  - reflexivity.
  - inversion IH as [|? ? Hsub Hds]; subst. simpl in Hsub.
    destruct (should_skip_name d include_hidden).
    + rewrite Z.add_0_l. auto.
    + rewrite counted_app, Hsub, length_app. simpl List.length.
      rewrite Nat.add_1_r. f_equal. auto.
Qed.

Lemma eligible_files_nonneg max_depth include_hidden t : forall depth,
  0 <= eligible_files max_depth include_hidden depth t.
Proof.
  intros depth.
  rewrite <- (repeat_length EmptyString depth), <- counted_events.
  apply counted_nonneg.
Qed.

(** What a scan that returns reports, in terms of the eligible files. *)
Lemma collect_stats_value max_depth include_hidden max_files scan_root r :
  0 <= max_files ->
  collect_stats max_depth include_hidden max_files scan_root = Returned r ->
  let n := eligible_files max_depth include_hidden 0 scan_root in
  scanned_files r = Z.min n max_files
  /\ (truncated r = true <-> n > max_files).
Proof.
  intros Hmax. unfold collect_stats. rewrite walk_run.
  pose proof (counted_events max_depth include_hidden scan_root []) as C.
  simpl List.length in C. rewrite <- C. clear C.
  destruct (run max_files _ empty_stats) as [acc|r'|e] eqn:R;
    intros [= <-]; cbv zeta.
  - apply run_Continue in R as (R1 & R2 & R3 & _). simpl in R1, R2.
    pose proof (counted_nonneg (events max_depth include_hidden [] scan_root)).
    assert (counted (events max_depth include_hidden [] scan_root)
            <= max_files) by lia.
    split; [lia|]. rewrite R2. split; [discriminate|lia].
  - apply run_Return in R as (pre & nf & post & a & E & El & Rp & G & ->).
    apply run_Continue in Rp as (P1 & _ & P3 & _). simpl in P1.
    rewrite E, counted_app, counted_cons. simpl counts. rewrite El.
    pose proof (counted_nonneg pre). pose proof (counted_nonneg post).
    unfold cap_result; cbn [scanned_files truncated].
    split; [lia|]. split; [lia|reflexivity].
Qed.

(** ** End-to-end examples of the specification *)

Example flat_scan :
  collect_stats 6 false 10 flat_tree = Returned flat_stats.
Proof. reflexivity. Qed.

Example flat_scan_capped :
  collect_stats 6 false 4 flat_tree = Returned flat_stats_capped.
Proof. reflexivity. Qed.

Example flat_report :
  out_top_extensions (build_output "/w" "t" flat_stats 5)
  = [{| g_ext := "py"; g_files := 3; g_lines := 60 |};
     {| g_ext := "md"; g_files := 2; g_lines := 10 |}]%string.
Proof. reflexivity. Qed.

(** ** The file-count cap *)

(** C1. With [max_files >= 1], a scan never reports more than [max_files]
    counted files.  A truncated scan reports exactly [max_files], its buckets
    hold exactly [max_files] files, and it stopped at the eligible file that
    would have been file [max_files + 1]: whatever follows that file in the
    walk has no influence, every tree that is walked alike up to that file
    gives the same result. *)
Theorem scanned_files_capped max_depth include_hidden max_files scan_root r :
  1 <= max_files ->
  collect_stats max_depth include_hidden max_files scan_root = Returned r ->
  scanned_files r <= max_files
  /\ (truncated r = true ->
      scanned_files r = max_files
      /\ sum_files (ext_stats r) = max_files
      /\ exists pre nf post,
          events max_depth include_hidden [] scan_root
          = pre ++ Visit nf :: post
          /\ eligible (snd nf) = true
          /\ counted pre = max_files
          /\ forall scan_root' rest,
              events max_depth include_hidden [] scan_root'
              = pre ++ Visit nf :: rest ->
              collect_stats max_depth include_hidden max_files scan_root'
              = Returned r).
Proof.
  intros Hmax. rewrite collect_stats_run.
  destruct (run max_files _ empty_stats) as [acc|r'|e] eqn:R;
    intros [= <-].
  - apply run_Continue in R as (R1 & R2 & R3 & _). simpl in R1, R2.
    pose proof (counted_nonneg (events max_depth include_hidden [] scan_root)).
    split; [|rewrite R2; discriminate].
    destruct (Z.eq_dec (counted (events max_depth include_hidden []
                                        scan_root)) 0); lia.
  - apply run_Return in R as (pre & nf & post & a & E & El & Rp & G & ->).
    pose proof Rp as Rp'.
    apply run_Continue in Rp' as (P1 & _ & P3 & P4). simpl in P1.
    destruct (P4 consistent_empty) as [_ Hf].
    pose proof (counted_nonneg pre).
    assert (scanned_files a = max_files) as Ha
      by (destruct (Z.eq_dec (counted pre) 0); lia).
    unfold cap_result at 1 2 3 4; cbn [scanned_files ext_stats].
    split; [lia|]. intros _.
    split; [reflexivity|]. split; [lia|].
    exists pre, nf, post. split; [exact E|]. split; [exact El|].
    split; [lia|]. intros scan_root' rest E'.
    rewrite collect_stats_run, E', (run_stops _ _ _ _ _ Rp El G).
    reflexivity.
Qed.

Lemma scanned_files_capped_witness :
  scanned_files flat_stats_capped <= 4
  /\ (truncated flat_stats_capped = true ->
      scanned_files flat_stats_capped = 4
      /\ sum_files (ext_stats flat_stats_capped) = 4
      /\ exists pre nf post,
          events 6 false [] flat_tree = pre ++ Visit nf :: post
          /\ eligible (snd nf) = true
          /\ counted pre = 4
          /\ forall scan_root' rest,
              events 6 false [] scan_root' = pre ++ Visit nf :: rest ->
              collect_stats 6 false 4 scan_root'
              = Returned flat_stats_capped).
Proof.
  apply (scanned_files_capped 6 false 4 flat_tree flat_stats_capped).
  - lia.
  - reflexivity.
Defined.

(** C2. With [max_files >= 1], the result of a scan is flagged as truncated
    exactly when the tree holds more eligible files than [max_files]. *)
Theorem truncated_iff_more_eligible
        max_depth include_hidden max_files scan_root r :
  1 <= max_files ->
  collect_stats max_depth include_hidden max_files scan_root = Returned r ->
  (truncated r = true
   <-> eligible_files max_depth include_hidden 0 scan_root > max_files)
  /\ (eligible_files max_depth include_hidden 0 scan_root <= max_files
      -> truncated r = false).
Proof.
  intros Hmax Hr.
  assert (0 <= max_files) as H0 by lia.
  destruct (collect_stats_value _ _ _ _ _ H0 Hr) as [_ Ht].
  split; [exact Ht|].
  intros Hle. destruct (truncated r); [|reflexivity].
  destruct Ht as [Ht _]. specialize (Ht eq_refl). lia.
Qed.

Lemma truncated_iff_more_eligible_witness :
  (truncated flat_stats_capped = true
   <-> eligible_files 6 false 0 flat_tree > 4)
  /\ (eligible_files 6 false 0 flat_tree <= 4
      -> truncated flat_stats_capped = false).
Proof.
  apply (truncated_iff_more_eligible 6 false 4 flat_tree flat_stats_capped).
  - lia.
  - reflexivity.
Defined.

(** C10. When the cap triggers, the result is what a scan of the part of
    the tree walked before the triggering file returns, with the flag raised:
    [scanned_files] is [max_files], which is what that part holds, and the
    buckets, [skipped_files], [total_lines] and [scanned_dirs] are those of
    that part.  The triggering file itself leaves no trace: any other
    eligible file in its place, followed by anything, gives the same
    result. *)
Theorem cap_trigger_leaves_no_trace
        max_depth include_hidden max_files scan_root r :
  1 <= max_files ->
  collect_stats max_depth include_hidden max_files scan_root = Returned r ->
  truncated r = true ->
  exists pre nf post before,
    events max_depth include_hidden [] scan_root = pre ++ Visit nf :: post
    /\ eligible (snd nf) = true
    /\ run max_files pre empty_stats = Continue before
    /\ (forall t,
           events max_depth include_hidden [] t = pre ->
           collect_stats max_depth include_hidden max_files t
           = Returned before)
    /\ truncated before = false
    /\ scanned_files before = max_files
    /\ scanned_files r = max_files
    /\ ext_stats r = ext_stats before
    /\ skipped_files r = skipped_files before
    /\ total_lines r = total_lines before
    /\ scanned_dirs r = scanned_dirs before
    /\ forall scan_root' nf' rest,
        eligible (snd nf') = true ->
        events max_depth include_hidden [] scan_root'
        = pre ++ Visit nf' :: rest ->
        collect_stats max_depth include_hidden max_files scan_root'
        = Returned r.
Proof.
  intros Hmax. rewrite collect_stats_run.
  destruct (run max_files _ empty_stats) as [acc|r'|e] eqn:R;
    intros [= <-] Ht.
  - apply run_Continue in R as (_ & R2 & _). simpl in R2. congruence.
  - apply run_Return in R as (pre & nf & post & a & E & El & Rp & G & ->).
    pose proof Rp as Rp'.
    apply run_Continue in Rp' as (P1 & P2 & P3 & _). simpl in P1, P2.
    pose proof (counted_nonneg pre).
    assert (scanned_files a = max_files) as Ha
      by (destruct (Z.eq_dec (counted pre) 0); lia).
    exists pre, nf, post, a.
    split; [exact E|]. split; [exact El|]. split; [exact Rp|].
    split; [intros t Et; rewrite collect_stats_run, Et, Rp; reflexivity|].
    split; [exact P2|]. split; [exact Ha|].
    repeat (split; [reflexivity|]).
    intros scan_root' nf' rest El' E'.
    rewrite collect_stats_run, E', (run_stops _ _ _ _ _ Rp El' G).
    reflexivity.
Qed.

Lemma cap_trigger_leaves_no_trace_witness :
  exists pre nf post before,
    events 6 false [] flat_tree = pre ++ Visit nf :: post
    /\ eligible (snd nf) = true
    /\ run 4 pre empty_stats = Continue before
    /\ (forall t,
           events 6 false [] t = pre ->
           collect_stats 6 false 4 t = Returned before)
    /\ truncated before = false
    /\ scanned_files before = 4
    /\ scanned_files flat_stats_capped = 4
    /\ ext_stats flat_stats_capped = ext_stats before
    /\ skipped_files flat_stats_capped = skipped_files before
    /\ total_lines flat_stats_capped = total_lines before
    /\ scanned_dirs flat_stats_capped = scanned_dirs before
    /\ forall scan_root' nf' rest,
        eligible (snd nf') = true ->
        events 6 false [] scan_root' = pre ++ Visit nf' :: rest ->
        collect_stats 6 false 4 scan_root' = Returned flat_stats_capped.
Proof.
  apply (cap_trigger_leaves_no_trace 6 false 4 flat_tree flat_stats_capped).
  - lia.
  - reflexivity.
  - reflexivity.
Defined.

(** ** Consistency of the totals *)

(** C3. In every scan result, truncated or not, [total_lines] is the sum of
    the [lines] of the extension buckets; the report copies [total_lines]
    and [scanned_files] unchanged whatever [top_extensions] is. *)
Theorem total_lines_is_bucket_sum
        max_depth include_hidden max_files scan_root r :
  collect_stats max_depth include_hidden max_files scan_root = Returned r ->
  total_lines r = sum_lines (ext_stats r)
  /\ forall root now top_extensions,
      out_total_lines (build_output root now r top_extensions)
      = sum_lines (ext_stats r)
      /\ out_scanned_files (build_output root now r top_extensions)
         = scanned_files r.
Proof.
  unfold collect_stats. rewrite walk_run.
  assert (total_lines r = sum_lines (ext_stats r) ->
          total_lines r = sum_lines (ext_stats r)
          /\ forall root now top_extensions,
              out_total_lines (build_output root now r top_extensions)
              = sum_lines (ext_stats r)
              /\ out_scanned_files (build_output root now r top_extensions)
                 = scanned_files r) as K
    by (intros H; split; [exact H|intros; split; [exact H|reflexivity]]).
  destruct (run max_files _ empty_stats) as [acc|r'|e] eqn:R;
    intros [= <-]; apply K.
  - apply run_Continue in R as (_ & _ & _ & R4).
    apply (R4 consistent_empty).
  - apply run_Return in R as (pre & nf & post & a & _ & _ & Rp & _ & ->).
    apply run_Continue in Rp as (_ & _ & _ & P4).
    apply consistent_cap, P4, consistent_empty.
Qed.

Lemma total_lines_is_bucket_sum_witness :
  total_lines flat_stats_capped = sum_lines (ext_stats flat_stats_capped)
  /\ forall root now top_extensions,
      out_total_lines (build_output root now flat_stats_capped top_extensions)
      = sum_lines (ext_stats flat_stats_capped)
      /\ out_scanned_files
           (build_output root now flat_stats_capped top_extensions)
         = scanned_files flat_stats_capped.
Proof.
  apply (total_lines_is_bucket_sum 6 false 4 flat_tree flat_stats_capped).
  reflexivity.
Defined.

(** ** Hidden names *)

Example nested_scan_plain :
  collect_stats 6 false 10 nested_tree = Returned nested_stats_plain.
Proof. reflexivity. Qed.

Example nested_scan_hidden :
  collect_stats 6 true 10 nested_tree = Returned nested_stats_hidden.
Proof. reflexivity. Qed.

Lemma filter_length_le {A : Type} (p q : A -> bool) l :
  (forall x, p x = true -> q x = true) ->
  (List.length (filter p l) <= List.length (filter q l))%nat.
Proof.
  intros H. induction l as [|x l IH]; simpl; [lia|].
  destruct (p x) eqn:P.
  - rewrite (H x P). simpl. lia.
  - destruct (q x); simpl; lia.
Qed.

Lemma eligible_files_hidden_le max_depth t : forall depth,
  eligible_files max_depth false depth t
  <= eligible_files max_depth true depth t.
Proof.
  induction t as [walked nondirs subdirs IH] using tree_ind.
  intros depth. rewrite !eligible_files_unfold.
  destruct (walked && (Z.of_nat depth <=? max_depth)); [|lia].
  assert (List.length (filter (passes_checks false) nondirs)
          <= List.length (filter (passes_checks true) nondirs))%nat as Hf.
  { apply filter_length_le. intros nf. unfold passes_checks. simpl.
    destruct (startswith_dot (fst nf)); [discriminate|auto]. }
  assert (eligible_below max_depth false depth subdirs
          <= eligible_below max_depth true depth subdirs) as Hd.
  { induction subdirs as [|[d sub] ds IHds]; simpl; [lia|].
    inversion IH as [|? ? Hsub Hds]; subst. simpl in Hsub.
    specialize (IHds Hds). specialize (Hsub (S depth)).
    pose proof (eligible_files_nonneg max_depth true sub (S depth)).
    destruct (startswith_dot d); lia. }
  lia.
Qed.

(** C9. On a fixed tree and with the other options fixed ([max_files >= 1]),
    the scan that includes hidden names reports at least as many counted
    files as the scan that excludes them. *)
Theorem include_hidden_monotone max_depth max_files scan_root r_off r_on :
  1 <= max_files ->
  collect_stats max_depth false max_files scan_root = Returned r_off ->
  collect_stats max_depth true max_files scan_root = Returned r_on ->
  scanned_files r_off <= scanned_files r_on.
Proof.
  intros Hmax Hoff Hon.
  assert (0 <= max_files) as H0 by lia.
  destruct (collect_stats_value _ _ _ _ _ H0 Hoff) as [-> _].
  destruct (collect_stats_value _ _ _ _ _ H0 Hon) as [-> _].
  pose proof (eligible_files_hidden_le max_depth scan_root 0%nat). lia.
Qed.

Lemma include_hidden_monotone_witness :
  scanned_files nested_stats_plain <= scanned_files nested_stats_hidden.
Proof.
  apply (include_hidden_monotone 6 10 nested_tree).
  - lia.
  - reflexivity.
  - reflexivity.
Defined.

(** ** The depth bound *)

Lemma walk_cut_below max_depth include_hidden max_files t :
  forall k rel acc,
    Z.of_nat (List.length rel) + Z.of_nat k > max_depth ->
    walk max_depth include_hidden max_files rel (cut_below k t) acc
    = walk max_depth include_hidden max_files rel t acc.
Proof.
  induction t as [walked nondirs subdirs IH] using tree_ind.
  intros k rel acc Hk. destruct k as [|k]; simpl cut_below;
    rewrite !walk_unfold.
  - unfold within_depth.
    destruct (Z.leb_spec (Z.of_nat (List.length rel)) max_depth); [lia|].
    destruct walked; reflexivity.
  - destruct (negb walked); [reflexivity|].
    destruct (negb (within_depth rel max_depth)); [reflexivity|].
    destruct (scan_files max_files _ (enter_dir acc)) as [acc1| |]; auto.
    clear acc. revert acc1.
    induction subdirs as [|[d sub] ds IHds]; intros acc1; simpl.
    + reflexivity.
    + inversion IH as [|? ? Hsub Hds]; subst. simpl in Hsub.
      destruct (should_skip_name d include_hidden); [auto|].
      rewrite Hsub by (rewrite length_app; simpl List.length; lia).
      destruct (walk _ _ _ _ sub acc1); auto.
Qed.

(** C4, as the code has it.  The contents of the directories at depth
    [max_depth + 1] and deeper (files whose path has [max_depth + 2]
    segments or more) have no influence on any field of the result, whatever
    [include_hidden] and [max_files] are: a scan of the tree gives what a
    scan of the tree cut below that depth gives. *)
Theorem beyond_max_depth_never_counted
        max_depth include_hidden max_files scan_root :
  collect_stats max_depth include_hidden max_files
                (cut_below (Z.to_nat max_depth + 1) scan_root)
  = collect_stats max_depth include_hidden max_files scan_root.
Proof.
  unfold collect_stats. rewrite walk_cut_below; [reflexivity|].
  simpl List.length. lia.
Qed.

(** C4, as stated, fails: with [max_depth = 1] the file [a/f.txt], whose
    path has [max_depth + 1] segments, is counted, and removing it changes
    the result. *)
Lemma file_at_max_depth_plus_one_is_counted :
  collect_stats 1 false 10 depth_tree
  = Returned {| ext_stats := [("txt"%string,
                               {| b_files := 1; b_lines := 1 |})];
                scanned_files := 1;
                scanned_dirs := 2;
                skipped_files := 0;
                total_lines := 1;
                truncated := false |}
  /\ cut_below 1 depth_tree = Node true [] [("a"%string, Node true [] [])]
  /\ collect_stats 1 false 10 depth_tree
     <> collect_stats 1 false 10 (cut_below 1 depth_tree).
Proof.
  split; [reflexivity|]. split; [reflexivity|].
  vm_compute. discriminate.
Qed.

(** ** Failures on one file *)

(** C5 fails on the code.  A failure of [stat] or of the sampling read makes
    the file skipped and the scan goes on, but a failure while counting the
    lines leaves [collect_stats] as an exception: no result is returned. *)
Theorem line_count_failure_aborts_scan :
  collect_stats 6 false 10
                (Node true [("a.txt", unstatable_file);
                            ("b.txt", unopenable_file);
                            ("c.txt", text_file (n_lines 1))]%string [])
  = Returned {| ext_stats := [("txt"%string,
                               {| b_files := 1; b_lines := 1 |})];
                scanned_files := 1;
                scanned_dirs := 1;
                skipped_files := 2;
                total_lines := 1;
                truncated := false |}
  /\ collect_stats 6 false 10
                   (Node true [("a.txt", vanishing_file);
                               ("c.txt", text_file (n_lines 1))]%string [])
     = Raised OSError.
Proof. split; reflexivity. Qed.

(** ** The report *)

Lemma slice_to_firstn {A : Type} (n : Z) (l : list A) :
  0 <= n -> slice_to n l = firstn (Z.to_nat n) l.
Proof.
  intros H. unfold slice_to.
  destruct (Z.leb_spec 0 n); [reflexivity|lia].
Qed.

(** The triples built from the buckets stand for them, one for one. *)
Lemma bucket_entry_groups_of d : map bucket_entry (groups_of d) = d.
Proof.
  unfold groups_of. rewrite map_map.
  induction d as [|[k [bf bl]] d IH]; cbn [map]; [reflexivity|].
  rewrite IH. reflexivity.
Qed.

Lemma groups_of_bucket_entry l : groups_of (map bucket_entry l) = l.
Proof.
  unfold groups_of. rewrite map_map.
  induction l as [|[e f n] l IH]; cbn [map]; [reflexivity|].
  rewrite IH. reflexivity.
Qed.

Lemma stands_for_buckets l d :
  Permutation (map bucket_entry l) d <-> Permutation l (groups_of d).
Proof.
  split; intros P.
  - rewrite <- (groups_of_bucket_entry l). unfold groups_of.
    apply Permutation_map. exact P.
  - rewrite <- (bucket_entry_groups_of d).
    apply Permutation_map. exact P.
Qed.

(** C6. For [top_extensions >= 1] the reported list is the first
    [top_extensions] entries of the ranking of the per-extension triples.
    The ranking holds one triple (extension, files, lines) for each bucket of
    the scan and nothing else, and it is the one arrangement of these triples
    in which every entry ranks before every later one (more files first, then
    more lines, then the smaller extension name).  Of two triples with equal
    file and line counts the one with the smaller name ranks first.  The
    counters of the report are those of the scan. *)
Theorem report_ranking root now st top_extensions :
  1 <= top_extensions ->
  let out := build_output root now st top_extensions in
  exists ranked,
    Permutation (map bucket_entry ranked) (ext_stats st)
    /\ StronglySorted ranks_before ranked
    /\ (forall other,
           Permutation (map bucket_entry other) (ext_stats st) ->
           StronglySorted ranks_before other -> other = ranked)
    /\ (forall g h,
           g_files g = g_files h -> g_lines g = g_lines h ->
           String.ltb (g_ext g) (g_ext h) = true ->
           ranks_before g h /\ ~ ranks_before h g)
    /\ out_top_extensions out = firstn (Z.to_nat top_extensions) ranked
    /\ out_total_lines out = total_lines st
    /\ out_scanned_files out = scanned_files st
    /\ out_scanned_dirs out = scanned_dirs st
    /\ out_skipped_files out = skipped_files st
    /\ out_truncated out = truncated st.
Proof.
  intros Htop out.
  assert (forall l, StronglySorted (fun g h => rank_le g h = true) l
                    <-> StronglySorted ranks_before l) as SS.
  { intros l. split; intros H; induction H; constructor; auto;
      (eapply Forall_impl; [|eassumption]); intros x Hx;
      apply rank_le_iff; exact Hx. }
  exists (sort rank_le (groups_of (ext_stats st))).
  split; [apply stands_for_buckets, sort_perm|].
  split; [apply SS, sort_sorted;
          [exact rank_le_total|exact rank_le_trans]|].
  split.
  { intros other P S. apply stands_for_buckets in P.
    apply (sorted_unique rank_le rank_le_antisym).
    - eapply Permutation_trans;
        [exact P|apply Permutation_sym, sort_perm].
    - apply SS, S.
    - apply sort_sorted; [exact rank_le_total|exact rank_le_trans]. }
  split.
  { intros g h Hf Hl Hlt. unfold ranks_before, String.leb.
    unfold String.ltb in Hlt.
    rewrite (String.compare_antisym (g_ext h) (g_ext g)).
    destruct (String.compare (g_ext g) (g_ext h)); try discriminate.
    simpl. split; [right; split; [lia|right; split; [lia|reflexivity]]|].
    intros [|[_ [|[_ ?]]]]; first [lia|discriminate]. }
  split.
  { unfold out, build_output; cbn [out_top_extensions].
    apply slice_to_firstn. lia. }
  repeat split.
Qed.

Example tied_report :
  out_top_extensions (build_output "/w" "t" tied_stats 4)
  = [{| g_ext := "md"; g_files := 3; g_lines := 1 |};
     {| g_ext := "c"; g_files := 2; g_lines := 12 |};
     {| g_ext := "js"; g_files := 2; g_lines := 9 |};
     {| g_ext := "ts"; g_files := 2; g_lines := 9 |}]%string.
Proof. reflexivity. Qed.

Lemma report_ranking_witness :
  let out := build_output "/w" "t" tied_stats 4 in
  exists ranked,
    Permutation (map bucket_entry ranked) (ext_stats tied_stats)
    /\ StronglySorted ranks_before ranked
    /\ (forall other,
           Permutation (map bucket_entry other) (ext_stats tied_stats) ->
           StronglySorted ranks_before other -> other = ranked)
    /\ (forall g h,
           g_files g = g_files h -> g_lines g = g_lines h ->
           String.ltb (g_ext g) (g_ext h) = true ->
           ranks_before g h /\ ~ ranks_before h g)
    /\ out_top_extensions out = firstn (Z.to_nat 4) ranked
    /\ out_total_lines out = total_lines tied_stats
    /\ out_scanned_files out = scanned_files tied_stats
    /\ out_scanned_dirs out = scanned_dirs tied_stats
    /\ out_skipped_files out = skipped_files tied_stats
    /\ out_truncated out = truncated tied_stats.
Proof.
  apply (report_ranking "/w" "t" tied_stats 4). lia.
Defined.

(** ** Extension normalization *)



(** A found dot splits the name around its last dot. *)
Lemma rfind_split s : forall i,
  rfind "." s = i -> 0 <= i ->
  exists stem ext,
    s = (stem ++ String "." ext)%string
    /\ Z.of_nat (String.length stem) = i
    /\ has_dot ext = false.
Proof.
  induction s as [|c s IH]; intros i; cbn [rfind]; [lia|].
  destruct (Z.leb_spec 0 (rfind "." s)) as [Hr|Hr].
  - intros <- _. destruct (IH _ eq_refl Hr) as (stem & ext & -> & L & D).
    exists (String c stem), ext. cbn [String.append String.length].
    repeat split; auto. lia.
  - destruct (Ascii.eqb_spec c ".") as [->|]; [|lia].
    intros <- _. exists EmptyString, s. repeat split.
    clear IH. revert Hr. induction s as [|d s IHs]; cbn [rfind has_dot];
      [reflexivity|].
    destruct (Z.leb_spec 0 (rfind "." s)); [lia|].
    destruct (Ascii.eqb d "."); [lia|]. intros _. simpl. apply IHs. lia.
Qed.

Lemma length_append s t :
  String.length (s ++ t) = (String.length s + String.length t)%nat.
Proof. induction s; simpl; auto. Qed.

Lemma drop_append stem t : drop (String.length stem) (stem ++ t) = t.
Proof. induction stem; simpl; auto. Qed.


Lemma lower_char_keeps_dot : lower_char "." = "."%char.
Proof. reflexivity. Qed.



(** ** Line counting *)

Lemma count_loop {A : Type} (l : list A) : forall z,
  fold_left (fun count _ => count + 1) l z = z + Z.of_nat (List.length l).
Proof.
  induction l as [|x l IH]; intros z; simpl List.length; simpl fold_left.
  - lia.
  - rewrite IH. lia.
Qed.

Lemma line_count_lines_in f bs :
  read_text f = Some bs -> line_count f = Returned (lines_in bs).
Proof.
  intros H. unfold line_count, lines_in. rewrite H, count_loop. reflexivity.
Qed.

Lemma utf8_decode_cons h b0 r0 :
  utf8_decode h (b0 :: r0)
  = ltac:(let t := eval cbn [utf8_decode] in (utf8_decode h (b0 :: r0)) in
          exact t).
Proof. reflexivity. Qed.

Lemma text_lines_from_cons cur c rest :
  text_lines_from cur (c :: rest)
  = ltac:(let t := eval cbn [text_lines_from] in
                     (text_lines_from cur (c :: rest)) in
          exact t).
Proof. reflexivity. Qed.

Lemma ascii_not_continuation n :
  (n <? 128)%N = true -> is_continuation n = false.
Proof.
  unfold is_continuation. intros H. apply N.ltb_lt in H.
  destruct (N.leb_spec 128 n); [lia|reflexivity].
Qed.

Lemma utf8_decode_ascii h a rest :
  (Byte.to_N a <? 128)%N = true ->
  utf8_decode h (a :: rest) = Byte.to_N a :: utf8_decode h rest.
Proof. intros H. rewrite utf8_decode_cons, H. reflexivity. Qed.

(** An ASCII byte is a synchronisation point of the decoder. *)
Lemma utf8_decode_app_ascii_bounded h a rest :
  (Byte.to_N a <? 128)%N = true ->
  forall n head, (List.length head <= n)%nat ->
  utf8_decode h (head ++ a :: rest)
  = utf8_decode h head ++ utf8_decode h (a :: rest).
Proof.
  intros Ha. pose proof (ascii_not_continuation _ Ha) as Hc.
  set (tl := utf8_decode h (a :: rest)).
  induction n as [|n IH]; intros head Hn.
  - destruct head; [reflexivity|simpl in Hn; lia].
  - destruct head as [|b0 r0]; [reflexivity|].
    cbn [app]. rewrite !utf8_decode_cons.
    repeat match goal with
    | |- context [match ?l ++ _ with _ => _ end] => destruct l; cbn [app]
    | |- context [is_continuation (Byte.to_N a)] => rewrite Hc; cbn [negb orb]
    | |- context [if ?c then _ else _] => destruct c eqn:?
    end.
    all: try reflexivity.
    all: rewrite <- ?app_assoc; cbn [app]; try reflexivity.
    all: f_equal;
      match goal with
      | |- _ = utf8_decode _ ?Y ++ _ =>
        apply (IH Y); cbn [List.length] in Hn |- *; lia
      end.
Qed.

Lemma utf8_decode_app_ascii h head a rest :
  (Byte.to_N a <? 128)%N = true ->
  utf8_decode h (head ++ a :: rest)
  = utf8_decode h head ++ Byte.to_N a :: utf8_decode h rest.
Proof.
  intros Ha.
  rewrite (utf8_decode_app_ascii_bounded h a rest Ha (List.length head))
    by apply Nat.le_refl.
  rewrite utf8_decode_ascii by exact Ha. reflexivity.
Qed.

Lemma utf8_decode_plain h bs :
  forallb plain bs = true ->
  utf8_decode h bs = map Byte.to_N bs
  /\ forallb not_terminator (map Byte.to_N bs) = true.
Proof.
  induction bs as [|b bs IH]; [split; reflexivity|].
  cbn [forallb map]. intros H. apply andb_prop in H as [Hb Hbs].
  destruct (IH Hbs) as [E T]. unfold plain in Hb.
  apply andb_prop in Hb as [Hb Hcr]. apply andb_prop in Hb as [Ha Hlf].
  rewrite utf8_decode_ascii by exact Ha. rewrite E. split; [reflexivity|].
  unfold not_terminator at 1. rewrite Hlf, Hcr. exact T.
Qed.

Lemma utf8_decode_invalid_start b rest :
  invalid_start b = true ->
  utf8_decode Ignore (b :: rest) = utf8_decode Ignore rest.
Proof.
  unfold invalid_start. intros H. rewrite utf8_decode_cons.
  destruct (N.ltb_spec (Byte.to_N b) 128);
    [destruct (N.leb_spec 128 (Byte.to_N b)),
              (N.leb_spec 245 (Byte.to_N b)); try lia; discriminate|].
  destruct (N.ltb_spec (Byte.to_N b) 194); [reflexivity|].
  destruct (N.leb_spec 245 (Byte.to_N b)).
  - destruct (N.ltb_spec (Byte.to_N b) 224); [lia|].
    destruct (N.ltb_spec (Byte.to_N b) 240); [lia|].
    destruct (N.ltb_spec (Byte.to_N b) 245); [lia|reflexivity].
  - destruct (N.leb_spec 128 (Byte.to_N b)); discriminate.
Qed.

Lemma text_lines_from_plain cs : forall cur,
  forallb not_terminator cs = true ->
  List.length (text_lines_from cur cs)
  = match cur, cs with
    | [], [] => 0%nat
    | _, _ => 1%nat
    end.
Proof.
  induction cs as [|c cs IH]; intros cur H.
  - destruct cur; reflexivity.
  - cbn [forallb] in H. apply andb_prop in H as [Hc Hcs].
    unfold not_terminator in Hc. apply andb_prop in Hc as [Hlf Hcr].
    rewrite text_lines_from_cons.
    destruct (c =? LF)%N; [discriminate|].
    destruct (c =? CR)%N; [discriminate|].
    rewrite (IH _ Hcs). destruct cur; reflexivity.
Qed.

Lemma text_lines_from_after_LF tail : forall n cs cur,
  (List.length cs <= n)%nat ->
  List.length (text_lines_from cur (cs ++ LF :: tail))
  = (List.length (text_lines_from cur (cs ++ [LF]))
     + List.length (text_lines_from [] tail))%nat.
Proof.
  induction n as [|n IH]; intros cs cur Hn.
  - destruct cs; [reflexivity|simpl in Hn; lia].
  - destruct cs as [|c rest]; [reflexivity|].
    cbn [app]. rewrite !text_lines_from_cons.
    cbn [List.length] in Hn.
    destruct (c =? LF)%N.
    + cbn [List.length]. rewrite IH by lia. reflexivity.
    + destruct (c =? CR)%N.
      * destruct rest as [|c' rest']; [reflexivity|].
        cbn [app]. cbn [List.length] in Hn.
        destruct (c' =? LF)%N; cbn [List.length].
        -- rewrite IH by lia. reflexivity.
        -- rewrite (IH (c' :: rest')) by (cbn [List.length]; lia).
           reflexivity.
      * apply IH. lia.
Qed.

(** A non-empty tail of plain characters after a line feed is one more
    line. *)
Lemma lines_in_unterminated_tail head tail :
  tail <> [] -> forallb plain tail = true ->
  lines_in (head ++ x0a :: tail) = lines_in (head ++ [x0a]) + 1.
Proof.
  intros Hne Hp. unfold lines_in, text_lines.
  rewrite !utf8_decode_app_ascii by reflexivity.
  destruct (utf8_decode_plain Ignore tail Hp) as [-> T].
  change (Byte.to_N x0a) with LF. cbn [utf8_decode].
  rewrite (text_lines_from_after_LF _ _ _ _ (Nat.le_refl _)).
  rewrite (text_lines_from_plain _ _ T).
  destruct tail; [congruence|]. cbn [map]. lia.
Qed.

Lemma lines_in_single_line bs :
  bs <> [] -> forallb plain bs = true -> lines_in bs = 1.
Proof.
  intros Hne Hp. unfold lines_in, text_lines.
  destruct (utf8_decode_plain Ignore bs Hp) as [-> T].
  rewrite (text_lines_from_plain _ _ T).
  destruct bs; [congruence|]. reflexivity.
Qed.

(** C7, as the code has it.  Counting the lines of a readable file never
    fails: the result is the number of lines of its text under text
    iteration, where the decoder drops malformed byte sequences.  An empty
    file has 0 lines; a non-empty run of plain characters after the last
    line feed counts as one more line, and a file that is such a run has one
    line; a byte that cannot start a sequence is dropped and leaves the count
    of what follows it unchanged. *)
Theorem line_count_semantics f bs :
  read_text f = Some bs ->
  line_count f = Returned (lines_in bs)
  /\ (bs = [] -> line_count f = Returned 0)
  /\ (forall head tail,
         bs = head ++ x0a :: tail -> tail <> [] ->
         forallb plain tail = true ->
         line_count f = Returned (lines_in (head ++ [x0a]) + 1))
  /\ (bs <> [] -> forallb plain bs = true -> line_count f = Returned 1)
  /\ (forall b rest,
         bs = b :: rest -> invalid_start b = true ->
         line_count f = Returned (lines_in rest)).
Proof.
  intros H. rewrite (line_count_lines_in f bs H).
  split; [reflexivity|]. split; [intros ->; reflexivity|].
  split; [intros head tail -> Hne Hp; f_equal;
          apply lines_in_unterminated_tail; assumption|].
  split; [intros Hne Hp; f_equal; apply lines_in_single_line; assumption|].
  intros b rest -> Hb. unfold lines_in.
  rewrite utf8_decode_invalid_start by exact Hb. reflexivity.
Qed.

Lemma line_count_semantics_witness :
  line_count (text_file [x61; x0a; x62]) = Returned 2
  /\ line_count (text_file [xff; x61; x0a]) = Returned 1.
Proof.
  split.
  - apply (proj1 (proj2 (proj2
             (line_count_semantics (text_file [x61; x0a; x62])
                                   [x61; x0a; x62] eq_refl)))
                 [x61] [x62]).
    + reflexivity.
    + discriminate.
    + reflexivity.
  - apply (proj2 (proj2 (proj2 (proj2
             (line_count_semantics (text_file [xff; x61; x0a])
                                   [xff; x61; x0a] eq_refl))))
                 xff [x61; x0a]).
    + reflexivity.
    + reflexivity.
Defined.

(** C7, as stated, fails: a file that holds the single byte FF has no line
    for the code, and one line if the malformed byte were replaced. *)
Lemma malformed_bytes_are_dropped_not_replaced :
  line_count (text_file [xff]) = Returned 0
  /\ lines_in_replacing [xff] = 1
  /\ line_count (text_file [xff]) <> Returned (lines_in_replacing [xff])
  /\ line_count (text_file [x61; x0a; xff]) = Returned 1
  /\ lines_in_replacing [x61; x0a; xff] = 2.
Proof.
  repeat split; try reflexivity. vm_compute. discriminate.
Qed.

(** * Further properties of the scanner *)

(** ** Totals over the events of a walk *)

Lemma event_total_app fw dw evs1 evs2 :
  event_total fw dw (evs1 ++ evs2)
  = event_total fw dw evs1 + event_total fw dw evs2.
Proof.
  unfold event_total. induction evs1 as [|ev evs1 IH]; simpl; [lia|].
  rewrite IH. lia.
Qed.

Lemma event_total_perm fw dw evs1 evs2 :
  Permutation evs1 evs2 -> event_total fw dw evs1 = event_total fw dw evs2.
Proof.
  unfold event_total. induction 1; simpl; lia.
Qed.

Lemma event_total_visits fw dw fs :
  event_total fw dw (map Visit fs) = fold_right (fun nf s => fw nf + s) 0 fs.
Proof.
  unfold event_total. induction fs as [|nf fs IH]; simpl; congruence.
Qed.

Lemma event_total_nonneg fw dw evs :
  (forall nf, 0 <= fw nf) -> 0 <= dw -> 0 <= event_total fw dw evs.
Proof.
  intros Hf Hd. unfold event_total.
  induction evs as [|[|nf] evs IH]; simpl; [lia|lia|].
  specialize (Hf nf). lia.
Qed.

Lemma rejected_total_nonneg evs :
  0 <= event_total (fun nf => if eligible (snd nf) then 0 else 1) 0 evs.
Proof.
  apply event_total_nonneg; [|lia].
  intros nf. destruct (eligible (snd nf)); lia.
Qed.

Lemma entered_total_nonneg evs : 0 <= event_total (fun _ => 0) 1 evs.
Proof. apply event_total_nonneg; [intros; lia|lia]. Qed.

Lemma tree_total_unfold fw dw max_depth include_hidden depth
      walked nondirs subdirs :
  tree_total fw dw max_depth include_hidden depth
             (Node walked nondirs subdirs)
  = if walked && (Z.of_nat depth <=? max_depth) then
      dw
      + fold_right (fun nf s => fw nf + s) 0
          (filter (fun nf => negb (should_skip_name (fst nf) include_hidden))
                  nondirs)
      + total_below fw dw max_depth include_hidden depth subdirs
    else 0.
Proof. reflexivity. Qed.

Lemma event_total_events fw dw max_depth include_hidden t : forall rel,
  event_total fw dw (events max_depth include_hidden rel t)
  = tree_total fw dw max_depth include_hidden (List.length rel) t.
Proof.
  induction t as [walked nondirs subdirs IH] using tree_ind.
  intros rel. rewrite events_unfold, tree_total_unfold.
  unfold within_depth.
  destruct walked; simpl negb; simpl andb; cbv iota; [|reflexivity].
  destruct (Z.of_nat (List.length rel) <=? max_depth); simpl negb; cbv iota;
    [|reflexivity].
  change (event_total fw dw (EnterDir :: ?l)) with (dw + event_total fw dw l).
  rewrite event_total_app.
  unfold listed_files.
  rewrite (event_total_perm fw dw _ (map Visit
    (filter (fun nf => negb (should_skip_name (fst nf) include_hidden))
            nondirs))) by (apply Permutation_map, sort_perm).
  rewrite event_total_visits.
  assert (event_total fw dw (events_dirs max_depth include_hidden rel subdirs)
          = total_below fw dw max_depth include_hidden (List.length rel)
                        subdirs) as ->; [|lia].
  induction subdirs as [|[d sub] ds IHds]; simpl.
  - reflexivity.
  - inversion IH as [|? ? Hsub Hds]; subst. simpl in Hsub.
    destruct (should_skip_name d include_hidden).
    + rewrite Z.add_0_l. auto.
    + rewrite event_total_app, Hsub, length_app. simpl List.length.
      rewrite Nat.add_1_r. f_equal. auto.
Qed.

(** The counted events are a total as well. *)
Lemma counted_as_total evs :
  counted evs = event_total (fun nf => if eligible (snd nf) then 1 else 0) 0
                            evs.
Proof.
  induction evs as [|ev evs IH]; [reflexivity|].
  rewrite counted_cons, IH. destruct ev; reflexivity.
Qed.

Lemma run_counters max_files evs : forall acc acc',
  run max_files evs acc = Continue acc' ->
  skipped_files acc'
  = skipped_files acc
    + event_total (fun nf => if eligible (snd nf) then 0 else 1) 0 evs
  /\ scanned_dirs acc'
     = scanned_dirs acc + event_total (fun _ => 0) 1 evs.
Proof.
  induction evs as [|ev evs IH]; intros acc acc'; simpl.
  - intros [= <-]. unfold event_total. simpl. lia.
  - destruct (step max_files ev acc) as [acc1| |] eqn:S; try discriminate.
    intros R. apply IH in R as [R1 R2]. rewrite R1, R2.
    change (event_total ?fw ?dw (ev :: evs))
      with (match ev with EnterDir => dw | Visit nf => fw nf end
            + event_total fw dw evs).
    destruct ev as [|[name f]]; unfold step in S.
    + injection S as <-.
      unfold enter_dir, skip_one, count_one;
        cbn [skipped_files scanned_dirs]; lia.
    + destruct (scan_file_cases max_files name f acc)
        as [[E H]|[[E [_ H]]|[E [_ H]]]]; cbn [snd]; rewrite E.
      * rewrite H in S. injection S as <-.
      unfold enter_dir, skip_one, count_one;
        cbn [skipped_files scanned_dirs]; lia.
      * rewrite H in S. discriminate.
      * destruct (line_count f); rewrite H in S; [|discriminate].
        injection S as <-.
      unfold enter_dir, skip_one, count_one;
        cbn [skipped_files scanned_dirs]; lia.
Qed.

(** X1. A scan that is not truncated accounts for the whole part of the tree
    it may enter: it counts every eligible file, skips every rejected file
    and reports every directory it entered. *)
Theorem untruncated_scan_accounts_for_everything
        max_depth include_hidden max_files scan_root r :
  collect_stats max_depth include_hidden max_files scan_root = Returned r ->
  truncated r = false ->
  scanned_files r = eligible_files max_depth include_hidden 0 scan_root
  /\ skipped_files r = rejected_files max_depth include_hidden 0 scan_root
  /\ scanned_dirs r = entered_dirs max_depth include_hidden 0 scan_root.
Proof.
  rewrite collect_stats_run.
  pose proof (counted_events max_depth include_hidden scan_root []) as C.
  pose proof (event_total_events
                (fun nf => if eligible (snd nf) then 0 else 1) 0
                max_depth include_hidden scan_root []) as Ts.
  pose proof (event_total_events (fun _ => 0) 1
                max_depth include_hidden scan_root []) as Td.
  simpl List.length in C, Ts, Td.
  destruct (run max_files _ empty_stats) as [acc|r'|e] eqn:R;
    intros [= <-] Ht.
  - pose proof R as R'. apply run_Continue in R' as (R1 & _).
    apply run_counters in R as [R2 R3]. simpl in R1, R2, R3.
    unfold rejected_files, entered_dirs. rewrite <- C, <- Ts, <- Td.
    repeat split; assumption.
  - apply run_Return in R as (pre & nf & post & a & _ & _ & _ & _ & ->).
    discriminate Ht.
Qed.

Lemma untruncated_scan_accounts_for_everything_witness :
  scanned_files nested_stats_hidden = eligible_files 6 true 0 nested_tree
  /\ skipped_files nested_stats_hidden = rejected_files 6 true 0 nested_tree
  /\ scanned_dirs nested_stats_hidden = entered_dirs 6 true 0 nested_tree.
Proof.
  apply (untruncated_scan_accounts_for_everything
           6 true 10 nested_tree nested_stats_hidden).
  - reflexivity.
  - reflexivity.
Defined.

(** X2. A truncated scan leaves something out: with [max_files >= 1] its
    counted and skipped files together are fewer than the files it could
    have visited, it skipped no more files than the tree has to reject, and
    it entered at least one directory and no more than the tree has. *)
Theorem truncated_scan_is_partial
        max_depth include_hidden max_files scan_root r :
  1 <= max_files ->
  collect_stats max_depth include_hidden max_files scan_root = Returned r ->
  truncated r = true ->
  scanned_files r + skipped_files r
  < eligible_files max_depth include_hidden 0 scan_root
    + rejected_files max_depth include_hidden 0 scan_root
  /\ 0 <= skipped_files r
     <= rejected_files max_depth include_hidden 0 scan_root
  /\ 1 <= scanned_dirs r
     <= entered_dirs max_depth include_hidden 0 scan_root.
Proof.
  intros Hmax. rewrite collect_stats_run.
  pose proof (counted_events max_depth include_hidden scan_root []) as C.
  pose proof (event_total_events
                (fun nf => if eligible (snd nf) then 0 else 1) 0
                max_depth include_hidden scan_root []) as Ts.
  pose proof (event_total_events (fun _ => 0) 1
                max_depth include_hidden scan_root []) as Td.
  simpl List.length in C, Ts, Td.
  destruct (run max_files _ empty_stats) as [acc|r'|e] eqn:R;
    intros [= <-] Ht.
  - apply run_Continue in R as (_ & R2 & _). simpl in R2. congruence.
  - apply run_Return in R as (pre & nf & post & a & E & El & Rp & G & ->).
    pose proof Rp as Rp'. apply run_Continue in Rp' as (P1 & _ & P3 & _).
    apply run_counters in Rp as [P4 P5]. simpl in P1, P4, P5.
    unfold rejected_files, entered_dirs. rewrite <- C, <- Ts, <- Td.
    rewrite E, counted_app, counted_cons, !event_total_app.
    change (event_total ?fw ?dw (Visit nf :: post))
      with (fw nf + event_total fw dw post).
    cbn [counts]. rewrite El.
    unfold cap_result; cbn [scanned_files skipped_files scanned_dirs].
    pose proof (counted_nonneg pre). pose proof (counted_nonneg post).
    pose proof (rejected_total_nonneg pre).
    pose proof (rejected_total_nonneg post).
    pose proof (entered_total_nonneg pre).
    pose proof (entered_total_nonneg post).
    assert (scanned_files a = max_files)
      by (destruct (Z.eq_dec (counted pre) 0); lia).
    assert (1 <= event_total (fun _ => 0) 1 pre) as Hdir.
    { destruct pre as [|[|nf0] pre'].
      - rewrite counted_nil in P1. lia.
      - change (event_total (fun _ => 0) 1 (EnterDir :: pre'))
          with (1 + event_total (fun _ => 0) 1 pre').
        pose proof (entered_total_nonneg pre'). lia.
      - exfalso. clear -E.
        destruct scan_root as [w nd sd]. rewrite events_unfold in E.
        destruct (negb w); [discriminate|].
        destruct (negb (within_depth [] max_depth)); discriminate. }
    lia.
Qed.

Lemma truncated_scan_is_partial_witness :
  scanned_files flat_stats_capped + skipped_files flat_stats_capped
  < eligible_files 6 false 0 flat_tree + rejected_files 6 false 0 flat_tree
  /\ 0 <= skipped_files flat_stats_capped
     <= rejected_files 6 false 0 flat_tree
  /\ 1 <= scanned_dirs flat_stats_capped
     <= entered_dirs 6 false 0 flat_tree.
Proof.
  apply (truncated_scan_is_partial 6 false 4 flat_tree flat_stats_capped).
  - lia.
  - reflexivity.
  - reflexivity.
Defined.

(** ** The buckets *)

Lemma setdefault_keys {V : Type} k (v : V) d x :
  In x (map fst (setdefault k v d)) -> x = k \/ In x (map fst d).
Proof.
  induction d as [|[k' v'] d IH]; simpl.
  - intros [<-|[]]. left. reflexivity.
  - destruct (String.eqb k' k); simpl; [auto|].
    intros [<-|H]; [auto|]. destruct (IH H); auto.
Qed.

Lemma setdefault_NoDup {V : Type} k (v : V) d :
  NoDup (map fst d) -> NoDup (map fst (setdefault k v d)).
Proof.
  induction d as [|[k' v'] d IH]; simpl; intros H.
  - constructor; [intros []|constructor].
  - destruct (String.eqb_spec k' k) as [->|Hne]; [exact H|].
    inversion H as [|? ? Hnin Hd]; subst. simpl. constructor; [|auto].
    intros Hin. apply setdefault_keys in Hin as [->|Hin]; auto.
Qed.

Lemma update_keys {V : Type} k (f : V -> V) d :
  map fst (update k f d) = map fst d.
Proof.
  induction d as [|[k' v'] d IH]; simpl; [reflexivity|].
  destruct (String.eqb k' k); simpl; congruence.
Qed.

Lemma bump_Forall {V : Type} (P : V -> Prop) k f (v : V) d :
  Forall (fun kv => P (snd kv)) d ->
  P (f v) -> (forall b, P b -> P (f b)) ->
  Forall (fun kv => P (snd kv)) (update k f (setdefault k v d)).
Proof.
  intros Hd Hv Hf. induction Hd as [|[k' v'] d Hx Hd IH]; simpl.
  - rewrite String.eqb_refl. constructor; [exact Hv|constructor].
  - destruct (String.eqb k' k) eqn:E; simpl; rewrite E.
    + constructor; [apply Hf, Hx|exact Hd].
    + constructor; [exact Hx|exact IH].
Qed.

Lemma bump_key_present {V : Type} k f (v : V) d :
  In k (map fst (update k f (setdefault k v d))).
Proof.
  rewrite update_keys. induction d as [|[k' v'] d IH]; simpl.
  - left. reflexivity.
  - destruct (String.eqb_spec k' k) as [->|]; simpl; auto.
Qed.

Lemma line_count_nonneg f lines : line_count f = Returned lines -> 0 <= lines.
Proof.
  unfold line_count. destruct (read_text f); [|discriminate].
  rewrite count_loop. intros [= <-]. lia.
Qed.

Lemma sum_lines_nonneg d :
  Forall (fun kv : string * bucket =>
            1 <= b_files (snd kv) /\ 0 <= b_lines (snd kv)) d ->
  0 <= sum_lines d.
Proof. induction 1 as [|kv d [_ H] _ IH]; simpl; lia. Qed.

Lemma run_well_formed max_files evs : forall acc acc',
  run max_files evs acc = Continue acc' ->
  well_formed_buckets (ext_stats acc) -> well_formed_buckets (ext_stats acc').
Proof.
  induction evs as [|ev evs IH]; intros acc acc'; simpl.
  - intros [= <-]. auto.
  - destruct (step max_files ev acc) as [acc1| |] eqn:S; try discriminate.
    intros R W. apply (IH _ _ R). clear IH R.
    destruct ev as [|[name f]]; unfold step in S.
    + injection S as <-. exact W.
    + destruct (scan_file_cases max_files name f acc)
        as [[_ H]|[[_ [_ H]]|[_ [_ H]]]].
      * rewrite H in S. injection S as <-. exact W.
      * rewrite H in S. discriminate.
      * destruct (line_count f) as [lines|] eqn:L; rewrite H in S;
          [|discriminate].
        injection S as <-. apply line_count_nonneg in L.
        destruct W as [Wk Wb]. unfold count_one; cbn [ext_stats]. split.
        -- rewrite update_keys. apply setdefault_NoDup, Wk.
        -- apply (bump_Forall (fun b => 1 <= b_files b /\ 0 <= b_lines b));
             [exact Wb|simpl; lia|simpl; intros b [? ?]; lia].
Qed.

(** X3. In every scan result, [scanned_files] is the number of files held
    by the buckets: every counted file is in one bucket (for
    [max_files >= 1], truncated or not). *)
Theorem scanned_files_is_bucket_sum
        max_depth include_hidden max_files scan_root r :
  1 <= max_files ->
  collect_stats max_depth include_hidden max_files scan_root = Returned r ->
  scanned_files r = sum_files (ext_stats r).
Proof.
  intros Hmax. rewrite collect_stats_run.
  destruct (run max_files _ empty_stats) as [acc|r'|e] eqn:R;
    intros [= <-].
  - apply run_Continue in R as (_ & _ & _ & R4).
    apply (R4 consistent_empty).
  - apply run_Return in R as (pre & nf & post & a & _ & _ & Rp & G & ->).
    apply run_Continue in Rp as (P1 & _ & P3 & P4). simpl in P1.
    destruct (P4 consistent_empty) as [_ Hf].
    pose proof (counted_nonneg pre).
    unfold cap_result; cbn [scanned_files ext_stats].
    destruct (Z.eq_dec (counted pre) 0); lia.
Qed.

Lemma scanned_files_is_bucket_sum_witness :
  scanned_files flat_stats_capped = sum_files (ext_stats flat_stats_capped).
Proof.
  apply (scanned_files_is_bucket_sum 6 false 4 flat_tree flat_stats_capped).
  - lia.
  - reflexivity.
Defined.

(** X4. The buckets of every scan result have distinct extension names, each
    bucket holds at least one file and a line count that is not negative,
    and [total_lines] is not negative. *)
Theorem buckets_are_well_formed
        max_depth include_hidden max_files scan_root r :
  collect_stats max_depth include_hidden max_files scan_root = Returned r ->
  NoDup (map fst (ext_stats r))
  /\ Forall (fun kv => 1 <= b_files (snd kv) /\ 0 <= b_lines (snd kv))
            (ext_stats r)
  /\ 0 <= total_lines r.
Proof.
  rewrite collect_stats_run.
  assert (well_formed_buckets (ext_stats empty_stats)) as W0
    by (split; constructor).
  destruct (run max_files _ empty_stats) as [acc|r'|e] eqn:R;
    intros [= <-].
  - pose proof (run_well_formed _ _ _ _ R W0) as [Wk Wb].
    apply run_Continue in R as (_ & _ & _ & R4).
    destruct (R4 consistent_empty) as [Hl _].
    split; [exact Wk|]. split; [exact Wb|].
    rewrite Hl. apply sum_lines_nonneg, Wb.
  - apply run_Return in R as (pre & nf & post & a & _ & _ & Rp & _ & ->).
    pose proof (run_well_formed _ _ _ _ Rp W0) as [Wk Wb].
    apply run_Continue in Rp as (_ & _ & _ & P4).
    destruct (P4 consistent_empty) as [Hl _].
    unfold cap_result; cbn [ext_stats total_lines].
    split; [exact Wk|]. split; [exact Wb|].
    rewrite Hl. apply sum_lines_nonneg, Wb.
Qed.

Lemma buckets_are_well_formed_witness :
  NoDup (map fst (ext_stats nested_stats_hidden))
  /\ Forall (fun kv => 1 <= b_files (snd kv) /\ 0 <= b_lines (snd kv))
            (ext_stats nested_stats_hidden)
  /\ 0 <= total_lines nested_stats_hidden.
Proof.
  apply (buckets_are_well_formed 6 true 10 nested_tree nested_stats_hidden).
  reflexivity.
Defined.

Lemma all_files_unfold walked nondirs subdirs :
  all_files (Node walked nondirs subdirs)
  = nondirs ++ all_files_below subdirs.
Proof. reflexivity. Qed.

Lemma listed_files_In include_hidden nondirs nf :
  In nf (listed_files include_hidden nondirs) <->
  In nf nondirs /\ should_skip_name (fst nf) include_hidden = false.
Proof.
  unfold listed_files. split.
  - intros H. apply (Permutation_in _ (sort_perm name_le _)) in H.
    apply filter_In in H as [H1 H2]. split; [exact H1|].
    destruct (should_skip_name (fst nf) include_hidden);
      [discriminate|reflexivity].
  - intros [H1 H2].
    apply (Permutation_in _ (Permutation_sym (sort_perm name_le _))).
    apply filter_In. split; [exact H1|]. rewrite H2. reflexivity.
Qed.

(** What a walk visits is in the tree and has passed the name filter. *)
Lemma events_in_tree max_depth include_hidden t : forall rel nf,
  In (Visit nf) (events max_depth include_hidden rel t) ->
  In nf (all_files t) /\ should_skip_name (fst nf) include_hidden = false.
Proof.
  induction t as [walked nondirs subdirs IH] using tree_ind.
  intros rel nf. rewrite events_unfold, all_files_unfold.
  destruct (negb walked); [intros []|].
  destruct (negb (within_depth rel max_depth)); [intros []|].
  intros [H|H]; [discriminate|]. apply in_app_or in H as [H|H].
  - apply in_map_iff in H as (nf' & [= ->] & H).
    apply listed_files_In in H as [H1 H2]. split; [|exact H2].
    apply in_or_app. left. exact H1.
  - assert (In nf (all_files_below subdirs)
            /\ should_skip_name (fst nf) include_hidden = false) as [H1 H2].
    { induction subdirs as [|[d sub] ds IHds]; simpl in H |- *; [destruct H|].
      inversion IH as [|? ? Hsub Hds]; subst. simpl in Hsub.
      destruct (should_skip_name d include_hidden).
      - destruct (IHds Hds H) as [H1 H2]. split; [|exact H2].
        apply in_or_app. right. exact H1.
      - apply in_app_or in H as [H|H].
        + destruct (Hsub _ _ H) as [H1 H2]. split; [|exact H2].
          apply in_or_app. left. exact H1.
        + destruct (IHds Hds H) as [H1 H2]. split; [|exact H2].
          apply in_or_app. right. exact H1. }
    split; [|exact H2]. apply in_or_app. right. exact H1.
Qed.

Lemma run_keys max_files evs : forall acc acc' k,
  run max_files evs acc = Continue acc' ->
  In k (map fst (ext_stats acc')) ->
  In k (map fst (ext_stats acc))
  \/ exists nf, In (Visit nf) evs /\ eligible (snd nf) = true
                /\ normalize_ext (fst nf) = k.
Proof.
  induction evs as [|ev evs IH]; intros acc acc' k; simpl.
  - intros [= <-]. auto.
  - destruct (step max_files ev acc) as [acc1| |] eqn:S; try discriminate.
    intros R Hk. destruct (IH _ _ _ R Hk) as [Hin|(nf & Hin & El & E)];
      [|right; exists nf; auto].
    clear IH R Hk. destruct ev as [|[name f]]; unfold step in S.
    + injection S as <-. left. exact Hin.
    + destruct (scan_file_cases max_files name f acc)
        as [[_ H]|[[_ [_ H]]|[El [_ H]]]].
      * rewrite H in S. injection S as <-. left. exact Hin.
      * rewrite H in S. discriminate.
      * destruct (line_count f) as [lines|]; rewrite H in S; [|discriminate].
        injection S as <-. unfold count_one in Hin; cbn [ext_stats] in Hin.
        rewrite update_keys in Hin.
        apply setdefault_keys in Hin as [->|Hin]; [|left; exact Hin].
        right. exists (name, f). auto.
Qed.

(** X5. Every bucket of a scan result is named after a file of the tree:
    its name is the normalized extension of a file that passed the checks
    and the hidden-name filter. *)
Theorem bucket_names_come_from_files
        max_depth include_hidden max_files scan_root r ext :
  collect_stats max_depth include_hidden max_files scan_root = Returned r ->
  In ext (map fst (ext_stats r)) ->
  exists name f,
    In (name, f) (all_files scan_root)
    /\ eligible f = true
    /\ should_skip_name name include_hidden = false
    /\ normalize_ext name = ext.
Proof.
  rewrite collect_stats_run.
  assert (forall pre a,
             run max_files pre empty_stats = Continue a ->
             (forall nf, In (Visit nf) pre ->
                         In (Visit nf) (events max_depth include_hidden []
                                               scan_root)) ->
             In ext (map fst (ext_stats a)) ->
             exists name f,
               In (name, f) (all_files scan_root)
               /\ eligible f = true
               /\ should_skip_name name include_hidden = false
               /\ normalize_ext name = ext) as K.
  { intros pre a Rp Hsub Hin.
    destruct (run_keys _ _ _ _ _ Rp Hin) as [[]|([name f] & Hv & El & E)].
    apply Hsub, events_in_tree in Hv as [H1 H2].
    exists name, f. auto. }
  destruct (run max_files _ empty_stats) as [acc|r'|e] eqn:R;
    intros [= <-] Hin.
  - apply (K _ _ R); auto.
  - apply run_Return in R as (pre & nf & post & a & E & _ & Rp & _ & ->).
    apply (K _ _ Rp); [|exact Hin].
    intros nf' H. rewrite E. apply in_or_app. left. exact H.
Qed.

Lemma bucket_names_come_from_files_witness :
  exists name f,
    In (name, f) (all_files nested_tree)
    /\ eligible f = true
    /\ should_skip_name name true = false
    /\ normalize_ext name = "no_ext"%string.
Proof.
  apply (bucket_names_come_from_files 6 true 10 nested_tree
                                      nested_stats_hidden).
  - reflexivity.
  - left. reflexivity.
Defined.

(** ** The bounds as parameters *)

Lemma eligible_files_depth_le include_hidden max_depth1 max_depth2 t :
  max_depth1 <= max_depth2 ->
  forall depth,
    eligible_files max_depth1 include_hidden depth t
    <= eligible_files max_depth2 include_hidden depth t.
Proof.
  intros Hle. induction t as [walked nondirs subdirs IH] using tree_ind.
  intros depth. rewrite !eligible_files_unfold.
  assert (eligible_below max_depth1 include_hidden depth subdirs
          <= eligible_below max_depth2 include_hidden depth subdirs
          /\ 0 <= eligible_below max_depth2 include_hidden depth subdirs)
    as [Hd Hd0].
  { induction subdirs as [|[d sub] ds IHds]; simpl; [lia|].
    inversion IH as [|? ? Hsub Hds]; subst. simpl in Hsub.
    specialize (IHds Hds). specialize (Hsub (S depth)).
    pose proof (eligible_files_nonneg max_depth2 include_hidden sub (S depth)).
    destruct (should_skip_name d include_hidden); lia. }
  destruct walked; cbn [andb]; [|lia].
  destruct (Z.leb_spec (Z.of_nat depth) max_depth1),
           (Z.leb_spec (Z.of_nat depth) max_depth2); lia.
Qed.

(** X6. Raising a bound never lowers the count: on a fixed tree, a scan
    with a larger [max_depth] and a larger [max_files] reports at least as
    many counted files (for [max_files >= 1], when both scans return). *)
Theorem larger_bounds_count_no_less
        include_hidden max_depth1 max_depth2 max_files1 max_files2
        scan_root r1 r2 :
  1 <= max_files1 -> max_files1 <= max_files2 -> max_depth1 <= max_depth2 ->
  collect_stats max_depth1 include_hidden max_files1 scan_root = Returned r1 ->
  collect_stats max_depth2 include_hidden max_files2 scan_root = Returned r2 ->
  scanned_files r1 <= scanned_files r2.
Proof.
  intros H1 H12 Hd R1 R2.
  assert (0 <= max_files1) as A1 by lia.
  assert (0 <= max_files2) as A2 by lia.
  destruct (collect_stats_value _ _ _ _ _ A1 R1) as [-> _].
  destruct (collect_stats_value _ _ _ _ _ A2 R2) as [-> _].
  pose proof (eligible_files_depth_le include_hidden _ _ scan_root Hd 0%nat).
  lia.
Qed.

Lemma larger_bounds_count_no_less_witness :
  scanned_files flat_stats_capped <= scanned_files flat_stats.
Proof.
  apply (larger_bounds_count_no_less false 6 6 4 10 flat_tree).
  - lia.
  - lia.
  - lia.
  - reflexivity.
  - reflexivity.
Defined.

Lemma run_larger_cap max_files max_files' evs : forall acc acc',
  max_files <= max_files' ->
  run max_files evs acc = Continue acc' ->
  run max_files' evs acc = Continue acc'.
Proof.
  induction evs as [|ev evs IH]; intros acc acc' Hle; simpl; [auto|].
  destruct ev as [|[name f]]; unfold step.
  - apply IH, Hle.
  - destruct (scan_file_cases max_files name f acc)
      as [[E H]|[[E [G H]]|[E [L H]]]];
      destruct (scan_file_cases max_files' name f acc)
        as [[E' H']|[[E' [G' H']]|[E' [L' H']]]];
      try congruence; try lia.
    + rewrite H, H'. apply IH, Hle.
    + rewrite H. discriminate.
    + destruct (line_count f); rewrite H; discriminate.
    + destruct (line_count f); rewrite H, H'; [apply IH, Hle|discriminate].
Qed.

(** X7. A scan that was not truncated is not changed by a larger cap: it
    returns the same result for every larger [max_files]. *)
Theorem untruncated_scan_ignores_larger_cap
        max_depth include_hidden max_files max_files' scan_root r :
  collect_stats max_depth include_hidden max_files scan_root = Returned r ->
  truncated r = false ->
  max_files <= max_files' ->
  collect_stats max_depth include_hidden max_files' scan_root = Returned r.
Proof.
  rewrite !collect_stats_run.
  destruct (run max_files _ empty_stats) as [acc|r'|e] eqn:R;
    intros [= <-] Ht Hle.
  - rewrite (run_larger_cap _ _ _ _ _ Hle R). reflexivity.
  - apply run_Return in R as (pre & nf & post & a & _ & _ & _ & _ & ->).
    discriminate Ht.
Qed.

Lemma untruncated_scan_ignores_larger_cap_witness :
  collect_stats 6 false 20000 flat_tree = Returned flat_stats.
Proof.
  apply (untruncated_scan_ignores_larger_cap 6 false 10 20000 flat_tree).
  - reflexivity.
  - reflexivity.
  - lia.
Defined.

(** ** What a scan does not depend on *)

Lemma sorted_unique_on {A : Type} (le : A -> A -> bool) l1 : forall l2,
  (forall x y, In x l1 -> In y l1 ->
               le x y = true -> le y x = true -> x = y) ->
  Permutation l1 l2 ->
  StronglySorted (fun x y => le x y = true) l1 ->
  StronglySorted (fun x y => le x y = true) l2 ->
  l1 = l2.
Proof.
  induction l1 as [|a l1 IH]; intros l2 Anti P S1 S2.
  - apply Permutation_nil in P. congruence.
  - destruct l2 as [|b l2].
    + apply Permutation_sym, Permutation_nil in P. discriminate.
    + apply StronglySorted_inv in S1 as [S1 F1].
      apply StronglySorted_inv in S2 as [S2 F2].
      assert (In b (a :: l1)) as Ib
        by (eapply Permutation_in;
            [apply Permutation_sym; exact P|left; reflexivity]).
      assert (a = b) as <-.
      { assert (In a (b :: l2)) as Ia
          by (eapply Permutation_in; [exact P|left; reflexivity]).
        destruct Ia as [->|Ia]; [reflexivity|].
        destruct Ib as [->|Ib]; [reflexivity|].
        rewrite Forall_forall in F1, F2.
        apply Anti; [left; reflexivity|right; exact Ib
                     |apply F1, Ib|apply F2, Ia]. }
      f_equal. apply IH; auto.
      * intros x y Hx Hy. apply Anti; right; assumption.
      * eapply Permutation_cons_inv; exact P.
Qed.

Lemma filter_perm {A : Type} (p : A -> bool) l1 l2 :
  Permutation l1 l2 -> Permutation (filter p l1) (filter p l2).
Proof.
  induction 1 as [|x l1 l2 _ IH|x y l|l1 l2 l3 _ IH1 _ IH2]; simpl.
  - constructor.
  - destruct (p x); [constructor|]; exact IH.
  - destruct (p x), (p y); try apply Permutation_refl. apply perm_swap.
  - eapply Permutation_trans; eassumption.
Qed.

Lemma same_name_same_entry {A : Type} (l : list (string * A)) x y :
  NoDup (map fst l) -> In x l -> In y l -> fst x = fst y -> x = y.
Proof.
  induction l as [|z l IH]; simpl; [intros _ []|].
  intros N Hx Hy E. inversion N as [|? ? Hnin Hl]; subst.
  destruct Hx as [->|Hx], Hy as [->|Hy]; auto.
  - exfalso. apply Hnin. rewrite E. apply in_map, Hy.
  - exfalso. apply Hnin. rewrite <- E. apply in_map, Hx.
Qed.

Lemma name_le_trans a b c :
  name_le a b = true -> name_le b c = true -> name_le a c = true.
Proof. apply string_leb_trans. Qed.

(** The order in which the files of a directory are scanned does not depend
    on the order of the listing. *)
Lemma listed_files_perm include_hidden nondirs nondirs' :
  Permutation nondirs nondirs' -> NoDup (map fst nondirs) ->
  listed_files include_hidden nondirs = listed_files include_hidden nondirs'.
Proof.
  intros P N. unfold listed_files.
  apply (sorted_unique_on name_le).
  - intros x y Hx Hy Hxy Hyx.
    apply (Permutation_in _ (sort_perm name_le _)), filter_In in Hx as [Hx _].
    apply (Permutation_in _ (sort_perm name_le _)), filter_In in Hy as [Hy _].
    apply (same_name_same_entry nondirs); auto.
    apply String.leb_antisym; assumption.
  - eapply Permutation_trans; [apply sort_perm|].
    eapply Permutation_trans; [apply filter_perm, P|].
    apply Permutation_sym, sort_perm.
  - apply sort_sorted; [exact name_le_total|exact name_le_trans].
  - apply sort_sorted; [exact name_le_total|exact name_le_trans].
Qed.

Lemma walk_reordered max_depth include_hidden max_files t :
  forall t' rel acc,
    reordered t t' ->
    walk max_depth include_hidden max_files rel t acc
    = walk max_depth include_hidden max_files rel t' acc.
Proof.
  induction t as [walked nondirs subdirs IH] using tree_ind.
  intros t' rel acc H.
  inversion H as [w nd nd' sd sd' P N F]; subst.
  rewrite !walk_unfold.
  destruct (negb walked); [reflexivity|].
  destruct (negb (within_depth rel max_depth)); [reflexivity|].
  rewrite <- (listed_files_perm include_hidden nondirs nd' P N).
  destruct (scan_files max_files _ (enter_dir acc)) as [acc1| |]; auto.
  clear -IH F. revert acc1.
  induction F as [|[d sub] [d' sub'] ds ds' [Hd Hs] F IHF]; intros acc1;
    simpl; [reflexivity|].
  simpl in Hd, Hs. subst d'.
  inversion IH as [|? ? Hsub Hds]; subst. simpl in Hsub.
  destruct (should_skip_name d include_hidden); [auto|].
  rewrite (Hsub sub' _ acc1 Hs).
  destruct (walk _ _ _ _ sub' acc1); auto.
Qed.

(** X8. The result of a scan does not depend on the order in which the
    files of a directory are listed: two trees that differ only in that
    order (names distinct within each directory) give the same result. *)
Theorem scan_ignores_listing_order
        max_depth include_hidden max_files t t' :
  reordered t t' ->
  collect_stats max_depth include_hidden max_files t
  = collect_stats max_depth include_hidden max_files t'.
Proof.
  intros H. unfold collect_stats.
  rewrite (walk_reordered _ _ _ _ _ _ _ H). reflexivity.
Qed.

Lemma scan_ignores_listing_order_witness :
  collect_stats 6 false 4 flat_tree
  = collect_stats 6 false 4 flat_tree_relisted.
Proof.
  apply (scan_ignores_listing_order 6 false 4 flat_tree flat_tree_relisted).
  constructor.
  - unfold flat_tree_relisted.
    apply (Permutation_trans (l' :=
      [("a.py", text_file (n_lines 10)); ("c.py", text_file (n_lines 30));
       ("y.md", text_file (n_lines 5)); ("b.py", text_file (n_lines 20));
       ("x.md", text_file (n_lines 5))]%string)).
    { apply perm_swap. }
    apply (Permutation_trans (l' :=
      [("x.md", text_file (n_lines 5)); ("a.py", text_file (n_lines 10));
       ("c.py", text_file (n_lines 30)); ("y.md", text_file (n_lines 5));
       ("b.py", text_file (n_lines 20))]%string)).
    { apply Permutation_sym.
      apply (Permutation_cons_app
               [("a.py", text_file (n_lines 10));
                ("c.py", text_file (n_lines 30));
                ("y.md", text_file (n_lines 5));
                ("b.py", text_file (n_lines 20))]%string []).
      rewrite app_nil_r. apply Permutation_refl. }
    apply perm_skip. apply Permutation_sym.
    apply (Permutation_cons_app
             [("a.py", text_file (n_lines 10));
              ("c.py", text_file (n_lines 30));
              ("y.md", text_file (n_lines 5))]%string []).
    rewrite app_nil_r. apply Permutation_refl.
  - simpl. repeat constructor; simpl; intuition discriminate.
  - constructor.
Defined.

Lemma without_hidden_unfold walked nondirs subdirs :
  without_hidden (Node walked nondirs subdirs)
  = Node walked
         (filter (fun nf => negb (startswith_dot (fst nf))) nondirs)
         (without_hidden_below subdirs).
Proof. reflexivity. Qed.

Lemma filter_twice {A : Type} (p : A -> bool) l :
  filter p (filter p l) = filter p l.
Proof.
  induction l as [|x l IH]; simpl; [reflexivity|].
  destruct (p x) eqn:E; simpl; rewrite ?E; congruence.
Qed.

Lemma walk_without_hidden max_depth max_files t : forall rel acc,
  walk max_depth false max_files rel (without_hidden t) acc
  = walk max_depth false max_files rel t acc.
Proof.
  induction t as [walked nondirs subdirs IH] using tree_ind.
  intros rel acc. rewrite without_hidden_unfold, !walk_unfold.
  destruct (negb walked); [reflexivity|].
  destruct (negb (within_depth rel max_depth)); [reflexivity|].
  unfold listed_files, should_skip_name. rewrite filter_twice.
  destruct (scan_files max_files _ (enter_dir acc)) as [acc1| |]; auto.
  clear acc. revert acc1.
  induction subdirs as [|[d sub] ds IHds]; intros acc1; simpl.
  - reflexivity.
  - inversion IH as [|? ? Hsub Hds]; subst. simpl in Hsub.
    destruct (startswith_dot d) eqn:E; [auto|].
    simpl. rewrite E, Hsub.
    destruct (walk _ _ _ _ sub acc1); auto.
Qed.

(** X9. When hidden names are excluded, nothing whose name starts with a
    dot has any influence: the scan of a tree gives what the scan of the
    tree without its hidden files and hidden directories gives. *)
Theorem hidden_entries_leave_no_trace max_depth max_files scan_root :
  collect_stats max_depth false max_files (without_hidden scan_root)
  = collect_stats max_depth false max_files scan_root.
Proof.
  unfold collect_stats. rewrite walk_without_hidden. reflexivity.
Qed.

(** ** What a scan reads of a file *)








(** ** The binary check *)

(** X11. For a file of an accepted size whose content can be read, the
    binary check is decided by the first 2048 bytes, which are the whole
    content of a shorter file, and by nothing else: the file is taken for
    binary exactly when these bytes hold a NUL byte, whatever follows
    them. *)
Theorem binary_check_samples_2048_bytes f size sample rest :
  st_size f = Some size -> size <= MAX_TEXT_FILE_BYTES ->
  read_rb f = Some (sample ++ rest) ->
  List.length sample = 2048%nat
  \/ ((List.length sample <= 2048)%nat /\ rest = []) ->
  is_binary_or_too_large f = existsb (Byte.eqb x00) sample.
Proof.
  intros Hs Hle Hr Hlen. unfold is_binary_or_too_large.
  rewrite Hs, Hr.
  destruct (Z.gtb_spec size MAX_TEXT_FILE_BYTES); [lia|].
  cbv zeta. f_equal. destruct Hlen as [Hlen|[Hlen ->]].
  - rewrite firstn_app, <- Hlen, firstn_all, Nat.sub_diag. simpl firstn.
    apply app_nil_r.
  - rewrite app_nil_r. apply firstn_all2, Hlen.
Qed.

Lemma binary_check_samples_2048_bytes_witness :
  is_binary_or_too_large late_nul_file
  = existsb (Byte.eqb x00) (repeat x78 2048)
  /\ is_binary_or_too_large (text_file (n_lines 1))
     = existsb (Byte.eqb x00) (n_lines 1).
Proof.
  split.
  - apply (binary_check_samples_2048_bytes late_nul_file 2049
                                           (repeat x78 2048) [x00]).
    + reflexivity.
    + unfold MAX_TEXT_FILE_BYTES. lia.
    + reflexivity.
    + left. apply repeat_length.
  - apply (binary_check_samples_2048_bytes (text_file (n_lines 1)) 2
                                           (n_lines 1) []).
    + reflexivity.
    + unfold MAX_TEXT_FILE_BYTES. lia.
    + reflexivity.
    + right. split; [simpl; lia|reflexivity].
Defined.

(** ** Lines and their terminators *)

Lemma utf8_decode_all_ascii h bs :
  forallb (fun b => (Byte.to_N b <? 128)%N) bs = true ->
  utf8_decode h bs = map Byte.to_N bs.
Proof.
  induction bs as [|b bs IH]; [reflexivity|].
  cbn [forallb map]. intros H. apply andb_prop in H as [Hb Hbs].
  rewrite utf8_decode_ascii by exact Hb. rewrite IH by exact Hbs.
  reflexivity.
Qed.

Lemma plain_is_ascii b : plain b = true -> (Byte.to_N b <? 128)%N = true.
Proof.
  unfold plain. intros H. apply andb_prop in H as [H _].
  apply andb_prop in H as [H _]. exact H.
Qed.

Lemma plain_not_terminator b :
  plain b = true -> not_terminator (Byte.to_N b) = true.
Proof.
  unfold plain, not_terminator. intros H. apply andb_prop in H as [H Hcr].
  apply andb_prop in H as [_ Hlf]. rewrite Hlf, Hcr. reflexivity.
Qed.

Lemma joined_cons {A : Type} (term : list A) l ls tail :
  joined term (l :: ls) tail = l ++ term ++ joined term ls tail.
Proof. unfold joined. simpl. rewrite <- !app_assoc. reflexivity. Qed.

Lemma joined_map {A B : Type} (g : A -> B) term ls tail :
  map g (joined term ls tail) = joined (map g term) (map (map g) ls)
                                       (map g tail).
Proof.
  induction ls as [|l ls IH]; [reflexivity|].
  cbn [map]. rewrite !joined_cons, !map_app, IH. reflexivity.
Qed.

(** One line and its terminator make one line of the iteration.  A lone CR
    ends the line provided no LF follows it. *)
Lemma text_lines_from_one_line term cs rest :
  term = [LF] \/ term = [CR; LF]
  \/ (term = [CR] /\ forall rest', rest <> LF :: rest') ->
  forallb not_terminator cs = true ->
  forall cur,
    List.length (text_lines_from cur (cs ++ term ++ rest))
    = S (List.length (text_lines_from [] rest)).
Proof.
  intros Hterm. induction cs as [|c cs IH]; intros Hp cur.
  - cbn [app]. destruct Hterm as [->|[->|[-> Hrest]]]; cbn [app].
    + rewrite text_lines_from_cons. reflexivity.
    + rewrite text_lines_from_cons. reflexivity.
    + rewrite text_lines_from_cons. cbn.
      destruct rest as [|c' rest']; [reflexivity|].
      destruct (N.eqb_spec c' LF) as [->|_]; [|reflexivity].
      exfalso. apply (Hrest rest'). reflexivity.
  - cbn [forallb] in Hp. apply andb_prop in Hp as [Hc Hcs].
    unfold not_terminator in Hc. apply andb_prop in Hc as [Hlf Hcr].
    cbn [app]. rewrite text_lines_from_cons.
    destruct (c =? LF)%N; [discriminate|].
    destruct (c =? CR)%N; [discriminate|].
    apply IH, Hcs.
Qed.

Lemma joined_not_LF_first ls tail :
  Forall (fun l => forallb not_terminator l = true) ls ->
  forallb not_terminator tail = true ->
  forall rest', joined [CR] ls tail <> LF :: rest'.
Proof.
  intros Hls Ht rest'. destruct Hls as [|l ls Hl Hls].
  - unfold joined. simpl. destruct tail as [|c tail]; [discriminate|].
    cbn [forallb] in Ht. apply andb_prop in Ht as [Hc _].
    intros E. injection E as E1 E2. subst c. discriminate Hc.
  - rewrite joined_cons. destruct l as [|c l]; [discriminate|].
    cbn [forallb] in Hl. apply andb_prop in Hl as [Hc _].
    intros E. injection E as E1 E2. subst c. discriminate Hc.
Qed.

Lemma text_lines_joined term ls tail :
  term = [LF] \/ term = [CR; LF] \/ term = [CR] ->
  Forall (fun l => forallb not_terminator l = true) ls ->
  forallb not_terminator tail = true ->
  List.length (text_lines (joined term ls tail))
  = (List.length ls + match tail with [] => 0 | _ => 1 end)%nat.
Proof.
  intros Hterm Hls Ht. unfold text_lines.
  induction Hls as [|l ls Hl Hls IH].
  - unfold joined. simpl. rewrite (text_lines_from_plain _ _ Ht).
    destruct tail; reflexivity.
  - rewrite joined_cons, text_lines_from_one_line; [|
      |exact Hl].
    + rewrite IH. reflexivity.
    + destruct Hterm as [-> | [-> | ->]]; auto.
      right. right. split; [reflexivity|].
      apply joined_not_LF_first; assumption.
Qed.

(** X12. For a file made of lines of plain ASCII characters, each followed
    by the same terminator (LF, CR LF or CR), and of a last part without
    terminator, [line_count] returns the number of terminated lines, plus
    one when the last part is not empty. *)
Theorem line_count_of_terminated_lines f term ls tail :
  read_text f = Some (joined term ls tail) ->
  term = [x0a] \/ term = [x0d; x0a] \/ term = [x0d] ->
  Forall (fun l => forallb plain l = true) ls ->
  forallb plain tail = true ->
  line_count f
  = Returned (Z.of_nat (List.length ls)
              + match tail with [] => 0 | _ => 1 end).
Proof.
  intros Hr Hterm Hls Ht.
  rewrite (line_count_lines_in f _ Hr). f_equal. unfold lines_in.
  assert (forallb (fun b => (Byte.to_N b <? 128)%N) (joined term ls tail)
          = true) as Hascii.
  { assert (forallb (fun b => (Byte.to_N b <? 128)%N) term = true) as Htm
      by (destruct Hterm as [-> | [-> | ->]]; reflexivity).
    clear Hr. induction Hls as [|l ls Hl Hls IH].
    - unfold joined. simpl. apply forallb_forall. intros b Hb.
      apply plain_is_ascii. rewrite forallb_forall in Ht. apply Ht, Hb.
    - rewrite joined_cons, !forallb_app, IH, Htm, !andb_true_r.
      apply forallb_forall. intros b Hb.
      apply plain_is_ascii. rewrite forallb_forall in Hl. apply Hl, Hb. }
  rewrite (utf8_decode_all_ascii _ _ Hascii), joined_map.
  rewrite text_lines_joined.
  - rewrite length_map. destruct tail; simpl; lia.
  - destruct Hterm as [-> | [-> | ->]]; auto.
  - clear -Hls. induction Hls as [|l ls Hl Hls IH]; simpl; constructor; auto.
    apply forallb_forall. intros c Hc.
    apply in_map_iff in Hc as (b & <- & Hb).
    apply plain_not_terminator. rewrite forallb_forall in Hl. apply Hl, Hb.
  - apply forallb_forall. intros c Hc.
    apply in_map_iff in Hc as (b & <- & Hb).
    apply plain_not_terminator. rewrite forallb_forall in Ht. apply Ht, Hb.
Qed.

Lemma line_count_of_terminated_lines_witness :
  line_count (text_file (joined [x0d; x0a] [[x61; x62]; []; [x63]] [x64]))
  = Returned 4.
Proof.
  apply (line_count_of_terminated_lines
           (text_file (joined [x0d; x0a] [[x61; x62]; []; [x63]] [x64]))
           [x0d; x0a] [[x61; x62]; []; [x63]] [x64]).
  - reflexivity.
  - right. left. reflexivity.
  - repeat constructor.
  - reflexivity.
Defined.

(** ** The names of the buckets *)

Lemma lower_char_idem c : lower_char (lower_char c) = lower_char c.
Proof. destruct c as [[] [] [] [] [] [] [] []]; reflexivity. Qed.

Lemma lower_idem s : lower (lower s) = lower s.
Proof.
  induction s as [|c s IH]; simpl; [reflexivity|].
  rewrite lower_char_idem, IH. reflexivity.
Qed.

Lemma lower_char_dot_iff c :
  Ascii.eqb (lower_char c) "." = Ascii.eqb c ".".
Proof. destruct c as [[] [] [] [] [] [] [] []]; reflexivity. Qed.

Lemma has_dot_lower s : has_dot (lower s) = has_dot s.
Proof.
  induction s as [|c s IH]; simpl; [reflexivity|].
  rewrite lower_char_dot_iff, IH. reflexivity.
Qed.

Lemma rfind_lower s : rfind "." (lower s) = rfind "." s.
Proof.
  induction s as [|c s IH]; simpl; [reflexivity|].
  rewrite lower_char_dot_iff, IH. reflexivity.
Qed.

Lemma length_lower s : String.length (lower s) = String.length s.
Proof. induction s; simpl; congruence. Qed.

Lemma drop_lower n : forall s, drop n (lower s) = lower (drop n s).
Proof.
  induction n as [|n IH]; intros s; [reflexivity|].
  destruct s as [|c s]; simpl; [reflexivity|apply IH].
Qed.

Lemma suffix_lower name : suffix (lower name) = lower (suffix name).
Proof.
  unfold suffix. rewrite rfind_lower, length_lower.
  destruct ((0 <? rfind "." name)
            && (rfind "." name <? Z.of_nat (String.length name) - 1));
    [apply drop_lower|reflexivity].
Qed.

Lemma lstrip_dot_no_dot s : has_dot s = false -> lstrip_dot s = s.
Proof.
  destruct s as [|c s]; simpl; [reflexivity|].
  intros H. apply orb_false_elim in H as [-> _]. reflexivity.
Qed.

(** What [normalize_ext] returns: the sentinel, or the lower-cased part
    after the last dot. *)
Lemma normalize_ext_cases name :
  normalize_ext name = "no_ext"%string
  \/ exists stem ext,
      name = (stem ++ String "." ext)%string
      /\ ext <> EmptyString /\ has_dot ext = false
      /\ normalize_ext name = lower ext.
Proof.
  unfold normalize_ext, suffix.
  destruct (Z.ltb_spec 0 (rfind "." name)) as [Hpos|]; [|left; reflexivity].
  destruct (Z.ltb_spec (rfind "." name)
                       (Z.of_nat (String.length name) - 1)) as [Hlt|];
    [|left; reflexivity].
  right. cbn [andb].
  assert (0 <= rfind "." name) as H0 by lia.
  destruct (rfind_split name _ eq_refl H0) as (stem & ext & E & L & D).
  exists stem, ext. split; [exact E|].
  assert (ext <> EmptyString) as Hne.
  { intros ->. rewrite <- L in Hlt. rewrite E, length_append in Hlt.
    cbn [String.length] in Hlt. lia. }
  split; [exact Hne|]. split; [exact D|].
  rewrite <- L, Nat2Z.id. clear L Hlt Hpos H0. subst name.
  rewrite drop_append.
  cbn [lower lstrip_dot]. rewrite lower_char_keeps_dot.
  cbn [Ascii.eqb Bool.eqb].
  rewrite lstrip_dot_no_dot by (rewrite has_dot_lower; exact D).
  destruct ext; [congruence|reflexivity].
Qed.

(** X13. The name of a bucket is never empty, holds no dot and no
    upper-case ASCII letter (lower-casing it again changes nothing). *)
Theorem normalize_ext_shape name :
  normalize_ext name <> EmptyString
  /\ has_dot (normalize_ext name) = false
  /\ lower (normalize_ext name) = normalize_ext name.
Proof.
  destruct (normalize_ext_cases name)
    as [->|(stem & ext & _ & Hne & D & ->)].
  - repeat split. discriminate.
  - split; [destruct ext; [congruence|discriminate]|].
    split; [rewrite has_dot_lower; exact D|apply lower_idem].
Qed.

(** X14. Names that differ only in the case of their ASCII letters go to
    the same bucket. *)
Theorem normalize_ext_ignores_case name1 name2 :
  lower name1 = lower name2 -> normalize_ext name1 = normalize_ext name2.
Proof.
  assert (forall name, normalize_ext (lower name) = normalize_ext name) as K.
  { intros name. unfold normalize_ext.
    rewrite suffix_lower, lower_idem. reflexivity. }
  intros H. rewrite <- (K name1), <- (K name2), H. reflexivity.
Qed.

Lemma normalize_ext_ignores_case_witness :
  normalize_ext "Photo.JPG" = normalize_ext "photo.jpg".
Proof.
  apply (normalize_ext_ignores_case "Photo.JPG" "photo.jpg").
  reflexivity.
Defined.

(** ** Further properties of the report *)

Lemma firstn_In {A : Type} (x : A) n : forall l,
  In x (firstn n l) -> In x l.
Proof.
  induction n as [|n IH]; intros l; simpl; [intros []|].
  destruct l as [|y l]; simpl; [intros []|].
  intros [H|H]; [left; exact H|right; apply IH, H].
Qed.

Lemma slice_to_In {A : Type} (n : Z) (l : list A) x :
  In x (slice_to n l) -> In x l.
Proof.
  unfold slice_to. destruct (0 <=? n); apply firstn_In.
Qed.

Lemma groups_of_In d g :
  In g (groups_of d) ->
  In (g_ext g, {| b_files := g_files g; b_lines := g_lines g |}) d.
Proof.
  unfold groups_of. intros H. apply in_map_iff in H as ([k [bf bl]] & <- & H).
  exact H.
Qed.

(** X15. For [top_extensions >= 0] the report lists as many groups as
    asked for, or all of them when there are fewer buckets. *)
Theorem report_length root now st top_extensions :
  0 <= top_extensions ->
  List.length (out_top_extensions
                 (build_output root now st top_extensions))
  = Nat.min (Z.to_nat top_extensions) (List.length (ext_stats st)).
Proof.
  intros H. unfold build_output; cbn [out_top_extensions].
  rewrite (slice_to_firstn _ _ H), length_firstn.
  rewrite (Permutation_length (sort_perm rank_le _)).
  unfold groups_of. rewrite length_map. reflexivity.
Qed.

Lemma report_length_witness :
  List.length (out_top_extensions (build_output "/w" "t" tied_stats 4))
  = Nat.min (Z.to_nat 4) (List.length (ext_stats tied_stats)).
Proof.
  apply (report_length "/w" "t" tied_stats 4). lia.
Defined.

Lemma slice_to_prefix {A : Type} (n : Z) (l : list A) :
  exists rest, l = slice_to n l ++ rest.
Proof.
  unfold slice_to.
  destruct (0 <=? n); eexists; symmetry; apply firstn_skipn.
Qed.

(** X16. The report invents nothing, repeats nothing and, when it has room,
    drops nothing.  Every group it lists is a bucket of the scan with the
    counts of that bucket; the groups it lists, together with a list of
    dropped ones, stand for the buckets of the scan one for one; and when
    [top_extensions] is at least the number of buckets nothing is dropped:
    the listed groups stand for the buckets of the scan one for one. *)
Theorem report_lists_buckets root now st top_extensions :
  let report :=
    out_top_extensions (build_output root now st top_extensions) in
  (forall g, In g report -> In (bucket_entry g) (ext_stats st))
  /\ (exists dropped,
         Permutation (map bucket_entry (report ++ dropped)) (ext_stats st))
  /\ (Z.of_nat (List.length (ext_stats st)) <= top_extensions ->
      Permutation (map bucket_entry report) (ext_stats st)).
Proof.
  unfold build_output; cbn [out_top_extensions]. cbv zeta.
  split; [|split].
  - intros g H. apply slice_to_In in H.
    apply (Permutation_in _ (sort_perm rank_le _)) in H.
    apply groups_of_In, H.
  - destruct (slice_to_prefix top_extensions
                (sort rank_le (groups_of (ext_stats st)))) as [rest E].
    exists rest. rewrite <- E. apply stands_for_buckets, sort_perm.
  - intros H. apply stands_for_buckets. rewrite slice_to_firstn by lia.
    rewrite firstn_all2; [apply sort_perm|].
    rewrite (Permutation_length (sort_perm rank_le _)).
    unfold groups_of. rewrite length_map. lia.
Qed.

Lemma report_lists_buckets_witness :
  let report := out_top_extensions (build_output "/w" "t" tied_stats 9) in
  (forall g, In g report -> In (bucket_entry g) (ext_stats tied_stats))
  /\ (exists dropped,
         Permutation (map bucket_entry (report ++ dropped))
                     (ext_stats tied_stats))
  /\ Permutation (map bucket_entry report) (ext_stats tied_stats).
Proof.
  destruct (report_lists_buckets "/w" "t" tied_stats 9) as (H1 & H2 & H3).
  split; [exact H1|]. split; [exact H2|]. apply H3. simpl. lia.
Defined.

Lemma sum_group_lines_perm gs1 gs2 :
  Permutation gs1 gs2 -> sum_group_lines gs1 = sum_group_lines gs2.
Proof. unfold sum_group_lines. induction 1; simpl; lia. Qed.

Lemma sum_group_lines_groups_of d :
  sum_group_lines (groups_of d) = sum_lines d.
Proof.
  unfold sum_group_lines, sum_lines, groups_of.
  induction d as [|kv d IH]; simpl; congruence.
Qed.

Lemma sum_group_lines_firstn n : forall gs,
  Forall (fun g => 0 <= g_lines g) gs ->
  sum_group_lines (firstn n gs) <= sum_group_lines gs.
Proof.
  unfold sum_group_lines.
  induction n as [|n IH]; intros gs H; simpl.
  - induction H; simpl; lia.
  - destruct H as [|g gs Hg H]; simpl; [lia|]. specialize (IH gs H). lia.
Qed.

(** What every returned result satisfies. *)
Lemma result_invariants max_depth include_hidden max_files scan_root r :
  collect_stats max_depth include_hidden max_files scan_root = Returned r ->
  total_lines r = sum_lines (ext_stats r)
  /\ well_formed_buckets (ext_stats r).
Proof.
  rewrite collect_stats_run.
  assert (well_formed_buckets (ext_stats empty_stats)) as W0
    by (split; constructor).
  destruct (run max_files _ empty_stats) as [acc|r'|e] eqn:R;
    intros [= <-].
  - split; [|apply (run_well_formed _ _ _ _ R W0)].
    apply run_Continue in R as (_ & _ & _ & R4).
    apply (R4 consistent_empty).
  - apply run_Return in R as (pre & nf & post & a & _ & _ & Rp & _ & ->).
    split; [|apply (run_well_formed _ _ _ _ Rp W0)].
    apply run_Continue in Rp as (_ & _ & _ & P4).
    apply consistent_cap, P4, consistent_empty.
Qed.

(** X17. In the report of a scan, the lines of the listed groups never
    add up to more than [total_lines], and they add up to exactly
    [total_lines] when [top_extensions] is at least the number of buckets. *)
Theorem reported_lines_within_total
        max_depth include_hidden max_files scan_root r
        root now top_extensions :
  collect_stats max_depth include_hidden max_files scan_root = Returned r ->
  let out := build_output root now r top_extensions in
  sum_group_lines (out_top_extensions out) <= out_total_lines out
  /\ (Z.of_nat (List.length (ext_stats r)) <= top_extensions ->
      sum_group_lines (out_top_extensions out) = out_total_lines out).
Proof.
  intros Hr out.
  destruct (result_invariants _ _ _ _ _ Hr) as [Hl [_ Wb]].
  assert (sum_group_lines (sort rank_le (groups_of (ext_stats r)))
          = total_lines r) as Hsum.
  { rewrite (sum_group_lines_perm _ _ (sort_perm rank_le _)).
    rewrite sum_group_lines_groups_of. symmetry. exact Hl. }
  assert (Forall (fun g => 0 <= g_lines g)
                 (sort rank_le (groups_of (ext_stats r)))) as Hnn.
  { eapply Permutation_Forall; [apply Permutation_sym, sort_perm|].
    unfold groups_of. apply Forall_map.
    eapply Forall_impl; [|exact Wb]. intros kv [_ H]. exact H. }
  unfold out, build_output; cbn [out_top_extensions out_total_lines].
  split.
  - rewrite <- Hsum. unfold slice_to.
    destruct (0 <=? top_extensions); apply sum_group_lines_firstn, Hnn.
  - intros H. rewrite slice_to_firstn by lia.
    rewrite firstn_all2; [exact Hsum|].
    rewrite (Permutation_length (sort_perm rank_le _)).
    unfold groups_of. rewrite length_map. lia.
Qed.

Lemma reported_lines_within_total_witness :
  let out := build_output "/w" "t" flat_stats 1 in
  sum_group_lines (out_top_extensions out) <= out_total_lines out
  /\ (Z.of_nat (List.length (ext_stats flat_stats)) <= 1 ->
      sum_group_lines (out_top_extensions out) = out_total_lines out).
Proof.
  apply (reported_lines_within_total 6 false 10 flat_tree flat_stats).
  reflexivity.
Defined.

(** * Properties of the options and of the entry point *)

(** ** Integer options *)

(** X18. With [minimum <= maximum] and a default inside the bounds, every
    integer that [to_int] returns lies inside the bounds, whatever the value
    and whatever [int] makes of a string. *)
Theorem to_int_within_bounds int_of_str v default minimum maximum n :
  minimum <= default <= maximum ->
  to_int int_of_str v default minimum maximum = inl n ->
  minimum <= n <= maximum.
Proof.
  intros Hd. unfold to_int.
  assert (forall c : Z + conv_error,
             match c with
             | inl parsed =>
               if parsed <? minimum then inl minimum
               else if parsed >? maximum then inl maximum else inl parsed
             | inr TypeError => inl default
             | inr ValueError => inl default
             | inr OverflowError => inr OverflowError
             end = inl n -> minimum <= n <= maximum) as K.
  { intros [parsed|[]]; try (intros [= <-]; lia); try discriminate.
    destruct (Z.ltb_spec parsed minimum); [intros [= <-]; lia|].
    destruct (Z.gtb_spec parsed maximum); intros [= <-]; lia. }
  destruct v; try apply K. intros [= <-]. lia.
Qed.

Lemma to_int_within_bounds_witness : 1 <= 32 <= 32.
Proof.
  apply (to_int_within_bounds (fun _ => None) (VFloat (FFinite 1025 (-1)))
                              6 1 32 32).
  - lia.
  - reflexivity.
Defined.

(** X19. [to_int] lets an exception escape for an infinite float and for
    nothing else: for every other value it returns an integer. *)
Theorem to_int_raises_only_on_infinity int_of_str v default minimum maximum :
  (exists e, to_int int_of_str v default minimum maximum = inr e)
  <-> exists negative, v = VFloat (FInf negative).
Proof.
  unfold to_int. split.
  - intros [e H]. destruct v as [|b|z|[|neg|m e']|s|l|d]; simpl in H;
      try discriminate;
      try (exists neg; reflexivity);
      try destruct (int_of_str s);
      repeat match type of H with
             | context [if ?c then _ else _] => destruct c
             end; discriminate.
  - intros [neg ->]. exists OverflowError. reflexivity.
Qed.

Lemma to_int_raises_only_on_infinity_witness :
  exists e,
    to_int sample_int_of_str (VFloat (FInf false)) 5000 1 20000 = inr e.
Proof.
  apply (proj2 (to_int_raises_only_on_infinity
                  sample_int_of_str (VFloat (FInf false)) 5000 1 20000)).
  exists false. reflexivity.
Defined.

(** ** Boolean options *)

Lemma is_space_lower_char c : is_space (lower_char c) = is_space c.
Proof. destruct c as [[] [] [] [] [] [] [] []]; reflexivity. Qed.

Lemma lstrip_lower s : lstrip (lower s) = lower (lstrip s).
Proof.
  induction s as [|c s IH]; simpl; [reflexivity|].
  rewrite is_space_lower_char. destruct (is_space c); [exact IH|reflexivity].
Qed.

Lemma rstrip_lower s : rstrip (lower s) = lower (rstrip s).
Proof.
  induction s as [|c s IH]; simpl; [reflexivity|].
  rewrite IH, is_space_lower_char.
  destruct (rstrip s); simpl; [destruct (is_space c)|]; reflexivity.
Qed.

Lemma strip_lower s : strip (lower s) = lower (strip s).
Proof. unfold strip. rewrite lstrip_lower, rstrip_lower. reflexivity. Qed.

Lemma lstrip_blank ws : blank ws = true -> lstrip ws = EmptyString.
Proof.
  induction ws as [|c ws IH]; simpl; [reflexivity|].
  intros H. apply andb_prop in H as [-> H]. apply IH, H.
Qed.

Lemma rstrip_blank ws : blank ws = true -> rstrip ws = EmptyString.
Proof.
  induction ws as [|c ws IH]; simpl; [reflexivity|].
  intros H. apply andb_prop in H as [-> H]. rewrite (IH H). reflexivity.
Qed.

Lemma lstrip_blank_app ws s :
  blank ws = true -> lstrip (ws ++ s) = lstrip s.
Proof.
  induction ws as [|c ws IH]; simpl; [reflexivity|].
  intros H. apply andb_prop in H as [-> H]. apply IH, H.
Qed.

Lemma rstrip_app_blank s ws :
  blank ws = true -> rstrip (s ++ ws) = rstrip s.
Proof.
  intros H. induction s as [|c s IH]; simpl.
  - apply rstrip_blank, H.
  - rewrite IH. reflexivity.
Qed.

Lemma strip_app_blank s ws : blank ws = true -> strip (s ++ ws) = strip s.
Proof.
  intros H. unfold strip. induction s as [|c s IH]; simpl.
  - rewrite (lstrip_blank ws H). reflexivity.
  - destruct (is_space c); [exact IH|].
    change (String c (s ++ ws)) with (String c s ++ ws)%string.
    apply rstrip_app_blank, H.
Qed.

Lemma strip_surrounded ws1 s ws2 :
  blank ws1 = true -> blank ws2 = true ->
  strip (ws1 ++ s ++ ws2) = strip s.
Proof.
  intros H1 H2. unfold strip. rewrite (lstrip_blank_app _ _ H1).
  apply (strip_app_blank s ws2 H2).
Qed.

(** X20. [to_bool] reads a string without regard to the whitespace around
    it and to the case of its letters. *)
Theorem to_bool_ignores_whitespace_and_case s1 s2 ws1 ws2 default :
  blank ws1 = true -> blank ws2 = true ->
  lower s1 = lower s2 ->
  to_bool (VStr (ws1 ++ s1 ++ ws2)) default = to_bool (VStr s2) default.
Proof.
  intros H1 H2 E. unfold to_bool.
  rewrite (strip_surrounded _ _ _ H1 H2).
  rewrite <- !strip_lower, E. reflexivity.
Qed.

Lemma to_bool_ignores_whitespace_and_case_witness :
  to_bool (VStr ("  " ++ "YES" ++ " ")) false = to_bool (VStr "yes") false.
Proof.
  apply (to_bool_ignores_whitespace_and_case "YES" "yes" "  " " " false);
    reflexivity.
Defined.

(** ** The entry point *)

Lemma to_int_returned int_of_str v default minimum maximum n :
  minimum <= default <= maximum ->
  to_int int_of_str v default minimum maximum = inl n ->
  minimum <= n <= maximum.
Proof.
  intros Hd. unfold to_int.
  destruct v as [|b|z|[|neg|m e']|s|l|d]; simpl;
    try (intros [= <-]; lia); try discriminate;
    try destruct (int_of_str s); try (intros [= <-]; lia);
    match goal with
    | |- context [if ?c <? minimum then _ else _] =>
      destruct (Z.ltb_spec c minimum); [intros [= <-]; lia|];
        destruct (Z.gtb_spec c maximum); intros [= <-]; lia
    end.
Qed.

Lemma to_int_raised int_of_str v default minimum maximum e :
  to_int int_of_str v default minimum maximum = inr e ->
  e = OverflowError /\ exists negative, v = VFloat (FInf negative).
Proof.
  unfold to_int. intros H.
  destruct v as [|b|z|[|neg|m e']|s|l|d]; simpl in H;
    try discriminate;
    try (injection H as <-; split; [reflexivity|exists neg; reflexivity]);
    try destruct (int_of_str s);
    repeat match type of H with
           | context [if ?c then _ else _] => destruct c
           end; discriminate.
Qed.

Lemma strip_blank raw : blank raw = true -> strip raw = EmptyString.
Proof. intros H. unfold strip. rewrite (lstrip_blank raw H). reflexivity. Qed.

Section MainFacts.
Variables (json_loads : string -> value + string)
          (int_of_str : string -> option Z)
          (str_of_other : value -> string)
          (resolve : string -> located)
          (now : string).

(** X21. When [main] prints a result, its exit status is 0 and the scan
    behind the result ran with options inside their bounds, whatever the
    input asked for: [max_depth] in 1..32, [top_extensions] in 1..50 and
    [max_files] in 1..20000.  So the result never reports more than 20000
    counted files nor lists more than 50 groups. *)
Theorem main_scans_within_bounds input status out :
  main json_loads int_of_str str_of_other resolve now input
  = Exit status (OkRecord out) ->
  status = 0
  /\ (exists root max_depth include_hidden max_files top_extensions stats,
         1 <= max_depth <= 32 /\ 1 <= max_files <= 20000
         /\ 1 <= top_extensions <= 50
         /\ collect_stats max_depth include_hidden max_files
                          (loc_tree (resolve root)) = Returned stats
         /\ out = build_output (loc_path (resolve root)) now stats
                               top_extensions)
  /\ out_scanned_files out <= 20000
  /\ (List.length (out_top_extensions out) <= 50)%nat.
Proof.
  unfold main.
  destruct (parse_runtime_input json_loads input) as [payload|err];
    [|discriminate].
  set (root := strip (py_str str_of_other
                             match get "root" payload with
                             | Some v => v
                             | None => VStr EmptyString
                             end)).
  destruct (negb (loc_exists (resolve root))
            || negb (loc_is_dir (resolve root))); [discriminate|].
  destruct (negb (loc_inside (resolve root))); [discriminate|].
  destruct (to_int int_of_str (payload_get payload "max_depth") _ _ _)
    as [max_depth|] eqn:Ed; [|discriminate].
  destruct (to_int int_of_str (payload_get payload "top_extensions") _ _ _)
    as [top|] eqn:Et; [|discriminate].
  destruct (to_int int_of_str (payload_get payload "max_files") _ _ _)
    as [max_files|] eqn:Ef; [|discriminate].
  destruct (collect_stats max_depth _ max_files _) as [stats|] eqn:Es;
    [|discriminate].
  intros [= <- <-].
  apply to_int_returned in Ed; [|unfold DEFAULT_MAX_DEPTH; lia].
  apply to_int_returned in Et; [|unfold DEFAULT_TOP_EXTENSIONS; lia].
  apply to_int_returned in Ef; [|unfold DEFAULT_MAX_FILES; lia].
  split; [reflexivity|]. split.
  { exists root, max_depth,
      (to_bool (payload_get payload "include_hidden") false),
      max_files, top, stats. auto. }
  assert (0 <= max_files) as H0 by lia.
  destruct (collect_stats_value _ _ _ _ _ H0 Es) as [Hs _].
  unfold build_output; cbn [out_scanned_files out_top_extensions].
  split; [lia|].
  rewrite slice_to_firstn by lia. rewrite length_firstn. lia.
Qed.

(** X22. An input that is empty or whitespace only runs the scan of the
    workspace root with the default options: depth 6, at most 5000 files,
    hidden names excluded, 10 groups in the report. *)
Theorem main_blank_input_uses_defaults raw stats :
  blank raw = true ->
  loc_exists (resolve EmptyString) = true ->
  loc_is_dir (resolve EmptyString) = true ->
  loc_inside (resolve EmptyString) = true ->
  collect_stats 6 false 5000 (loc_tree (resolve EmptyString)) = Returned stats ->
  main json_loads int_of_str str_of_other resolve now raw
  = Exit 0 (OkRecord (build_output (loc_path (resolve EmptyString)) now stats 10)).
Proof.
  intros Hb He Hd Hi Hs. unfold main, parse_runtime_input.
  rewrite (strip_blank raw Hb). cbn [get py_str].
  change (strip EmptyString) with EmptyString.
  rewrite He, Hd, Hi. cbn [negb orb].
  unfold payload_get; cbn [get to_int to_bool].
  unfold DEFAULT_MAX_DEPTH, DEFAULT_MAX_FILES, DEFAULT_TOP_EXTENSIONS.
  rewrite Hs. reflexivity.
Qed.

(** X23. An infinite float in one of the three integer options is not
    reported as an error record.  When the input parses to an object whose
    root names a directory inside the workspace and [max_depth],
    [top_extensions] or [max_files] is an infinite float, [main] ends in an
    uncaught [OverflowError], whatever the other options are: it prints no
    record and returns no exit status of its own. *)
Theorem main_infinite_option_is_uncaught input payload key negative :
  parse_runtime_input json_loads input = inl payload ->
  let scan_root :=
    resolve (strip (py_str str_of_other
                           match get "root" payload with
                           | Some v => v
                           | None => VStr EmptyString
                           end)) in
  loc_exists scan_root = true ->
  loc_is_dir scan_root = true ->
  loc_inside scan_root = true ->
  In key ["max_depth"; "top_extensions"; "max_files"]%string ->
  payload_get payload key = VFloat (FInf negative) ->
  main json_loads int_of_str str_of_other resolve now input
  = Traceback (UncaughtConversion OverflowError).
Proof.
  intros Hp scan_root He Hd Hi Hk Hv. unfold main. rewrite Hp.
  fold scan_root. cbv zeta. rewrite He, Hd, Hi. cbn [negb orb].
  assert (forall default minimum maximum,
             to_int int_of_str (payload_get payload key)
                    default minimum maximum = inr OverflowError) as Hinf.
  { intros. rewrite Hv. reflexivity. }
  destruct (to_int int_of_str (payload_get payload "max_depth") _ _ _)
    as [max_depth|e1] eqn:Ed.
  2:{ apply to_int_raised in Ed as [-> _]. reflexivity. }
  destruct (to_int int_of_str (payload_get payload "top_extensions") _ _ _)
    as [top|e2] eqn:Et.
  2:{ apply to_int_raised in Et as [-> _]. reflexivity. }
  destruct (to_int int_of_str (payload_get payload "max_files") _ _ _)
    as [max_files|e3] eqn:Ef.
  2:{ apply to_int_raised in Ef as [-> _]. reflexivity. }
  exfalso. destruct Hk as [<- | [<- | [<- | []]]].
  - rewrite Hinf in Ed. discriminate Ed.
  - rewrite Hinf in Et. discriminate Et.
  - rewrite Hinf in Ef. discriminate Ef.
Qed.

End MainFacts.

Lemma main_scans_within_bounds_witness :
  let out := build_output "/w" "t" flat_stats_capped 50 in
  0 = 0
  /\ (exists root max_depth include_hidden max_files top_extensions stats,
         1 <= max_depth <= 32 /\ 1 <= max_files <= 20000
         /\ 1 <= top_extensions <= 50
         /\ collect_stats max_depth include_hidden max_files
                          (loc_tree (sample_resolve root)) = Returned stats
         /\ out = build_output (loc_path (sample_resolve root)) "t" stats
                               top_extensions)
  /\ out_scanned_files out <= 20000
  /\ (List.length (out_top_extensions out) <= 50)%nat.
Proof.
  apply (main_scans_within_bounds sample_payload sample_int_of_str
           sample_str_of_other sample_resolve "t" "input").
  reflexivity.
Defined.

Lemma main_blank_input_uses_defaults_witness :
  main sample_payload sample_int_of_str sample_str_of_other sample_resolve
       "t" "  "
  = Exit 0 (OkRecord (build_output "/w" "t" flat_stats 10)).
Proof.
  apply (main_blank_input_uses_defaults sample_payload sample_int_of_str
           sample_str_of_other sample_resolve "t" "  " flat_stats);
    reflexivity.
Defined.

Lemma main_infinite_option_is_uncaught_witness :
  main sample_payload_infinite sample_int_of_str sample_str_of_other
       sample_resolve "t" "input"
  = Traceback (UncaughtConversion OverflowError).
Proof.
  apply (main_infinite_option_is_uncaught
           sample_payload_infinite sample_int_of_str sample_str_of_other
           sample_resolve "t" "input"
           [("max_files", VFloat (FInf false))]%string
           "max_files"%string false).
  - reflexivity.
  - reflexivity.
  - reflexivity.
  - reflexivity.
  - simpl. tauto.
  - reflexivity.
Defined.

(** * Properties of the image generator's helpers *)

(** ** Slugs *)

Lemma is_dash_eq c : is_dash c = true -> c = "-"%char.
Proof. unfold is_dash. intros H. apply Ascii.eqb_eq, H. Qed.

Lemma slug_chars_sub_runs s : forall b,
  slug_chars (sub_runs (fun c => negb (is_slug_char c)) b s) = true.
Proof.
  induction s as [|c s IH]; intros b; simpl; [reflexivity|].
  destruct (is_slug_char c) eqn:E; simpl.
  - rewrite E. simpl. apply IH.
  - destruct b; simpl; apply IH.
Qed.

Lemma slug_chars_sub_dashes s : forall b,
  slug_chars s = true -> slug_chars (sub_dashes b s) = true.
Proof.
  induction s as [|c s IH]; intros b; simpl; [reflexivity|].
  intros H. apply andb_prop in H as [Hc Hs].
  destruct (is_dash c) eqn:E; [destruct b|]; simpl;
    rewrite ?E, ?Hc; simpl; apply IH, Hs.
Qed.

Lemma slug_chars_lstrip class s :
  slug_chars s = true -> slug_chars (lstrip_class class s) = true.
Proof.
  induction s as [|c s IH]; simpl; [reflexivity|].
  intros H. destruct (class c); [|exact H].
  apply andb_prop in H as [_ Hs]. apply IH, Hs.
Qed.

Lemma slug_chars_rstrip class s :
  slug_chars s = true -> slug_chars (rstrip_class class s) = true.
Proof.
  induction s as [|c s IH]; simpl; [reflexivity|].
  intros H. apply andb_prop in H as [Hc Hs]. specialize (IH Hs).
  destruct (rstrip_class class s) as [|c' r].
  - destruct (class c); simpl; [reflexivity|]. rewrite Hc. reflexivity.
  - cbn [slug_chars] in IH |- *. rewrite Hc, IH. reflexivity.
Qed.

Lemma no_double_dash_sub_dashes s : forall b,
  no_double_dash b (sub_dashes b s) = true.
Proof.
  induction s as [|c s IH]; intros b; simpl; [reflexivity|].
  destruct (is_dash c) eqn:E.
  - destruct b; [apply IH|]. simpl. rewrite E. simpl. apply IH.
  - simpl. rewrite E. apply IH.
Qed.

Lemma no_double_dash_lstrip s : forall b,
  no_double_dash b s = true ->
  no_double_dash true (lstrip_class is_dash s) = true.
Proof.
  induction s as [|c s IH]; intros b; simpl; [reflexivity|].
  destruct (is_dash c) eqn:E.
  - intros H. apply andb_prop in H as [_ H]. apply (IH true H).
  - intros H. simpl. rewrite E. exact H.
Qed.

Lemma dashes_separate_rstrip s : forall b,
  no_double_dash b s = true ->
  rstrip_class is_dash s = EmptyString
  \/ dashes_separate b (rstrip_class is_dash s) = true.
Proof.
  induction s as [|c s IH]; intros b; simpl; [auto|].
  destruct (is_dash c) eqn:E.
  - intros H. apply andb_prop in H as [Hb H].
    destruct (IH true H) as [-> | Hr]; [left; reflexivity|].
    right. destruct (rstrip_class is_dash s) as [|c' r];
      [discriminate Hr|].
    cbn [dashes_separate]. rewrite E, Hb. exact Hr.
  - intros H. right. destruct (IH false H) as [-> | Hr].
    + simpl. rewrite E. reflexivity.
    + destruct (rstrip_class is_dash s) as [|c' r];
        cbn [dashes_separate]; rewrite E; [reflexivity|exact Hr].
Qed.

(** The slug before the fallback is empty or well formed. *)
Lemma stripped_slug_shape text :
  let t := strip_class is_dash
             (sub_dashes false
                (sub_runs (fun c => negb (is_slug_char c)) false text)) in
  slug_chars t = true
  /\ (t = EmptyString \/ dashes_separate true t = true).
Proof.
  cbv zeta. unfold strip_class. split.
  - apply slug_chars_rstrip, slug_chars_lstrip, slug_chars_sub_dashes,
      slug_chars_sub_runs.
  - apply dashes_separate_rstrip.
    apply (no_double_dash_lstrip _ false), no_double_dash_sub_dashes.
Qed.

Lemma sanitize_slug_clean text :
  slug_chars (sanitize_slug text) = true
  /\ dashes_separate true (sanitize_slug text) = true.
Proof.
  unfold sanitize_slug.
  destruct (stripped_slug_shape (lower (strip text))) as [Hc Hd].
  cbv zeta in Hc, Hd.
  destruct (strip_class is_dash _) as [|c r]; [split; reflexivity|].
  split; [exact Hc|]. destruct Hd as [Hd|Hd]; [discriminate Hd|exact Hd].
Qed.

(** X24. A slug is never empty, is made of the letters a-z, digits and
    dashes only, neither starts nor ends with a dash and holds no two dashes
    in a row. *)
Theorem sanitize_slug_shape text :
  sanitize_slug text <> EmptyString
  /\ slug_chars (sanitize_slug text) = true
  /\ dashes_separate true (sanitize_slug text) = true.
Proof.
  destruct (sanitize_slug_clean text) as [Hc Hd].
  split; [|split; assumption].
  intros E. rewrite E in Hd. discriminate Hd.
Qed.

Lemma slug_char_not_space c :
  is_slug_char c || is_dash c = true ->
  is_space c = false /\ lower_char c = c.
Proof.
  destruct c as [[] [] [] [] [] [] [] []]; vm_compute;
    intros H; first [discriminate H|split; reflexivity].
Qed.

Lemma slug_lstrip s : slug_chars s = true -> lstrip s = s.
Proof.
  destruct s as [|c s]; simpl; [reflexivity|].
  intros H. apply andb_prop in H as [Hc _].
  destruct (slug_char_not_space c Hc) as [-> _]. reflexivity.
Qed.

Lemma slug_rstrip s : slug_chars s = true -> rstrip s = s.
Proof.
  induction s as [|c s IH]; simpl; [reflexivity|].
  intros H. apply andb_prop in H as [Hc Hs]. rewrite (IH Hs).
  destruct (slug_char_not_space c Hc) as [-> _].
  destruct s; reflexivity.
Qed.

Lemma slug_lower s : slug_chars s = true -> lower s = s.
Proof.
  induction s as [|c s IH]; simpl; [reflexivity|].
  intros H. apply andb_prop in H as [Hc Hs]. rewrite (IH Hs).
  destruct (slug_char_not_space c Hc) as [_ ->]. reflexivity.
Qed.

Lemma dashes_separate_no_double s : forall b,
  dashes_separate b s = true -> no_double_dash b s = true.
Proof.
  induction s as [|c s IH]; intros b; simpl; [reflexivity|].
  destruct (is_dash c).
  - intros H. apply andb_prop in H as [-> H]. apply (IH true H).
  - apply IH.
Qed.

Lemma slug_sub_runs s : forall b,
  slug_chars s = true -> no_double_dash b s = true ->
  sub_runs (fun c => negb (is_slug_char c)) b s = s.
Proof.
  induction s as [|c s IH]; intros b; simpl; [reflexivity|].
  intros H N. apply andb_prop in H as [Hc Hs].
  destruct (is_dash c) eqn:E.
  - apply andb_prop in N as [Hb N]. apply is_dash_eq in E. subst c.
    destruct b; [discriminate Hb|]. simpl. rewrite (IH true Hs N).
    reflexivity.
  - rewrite orb_false_r in Hc. rewrite Hc. simpl.
    rewrite (IH false Hs N). reflexivity.
Qed.

Lemma slug_sub_dashes s : forall b,
  no_double_dash b s = true -> sub_dashes b s = s.
Proof.
  induction s as [|c s IH]; intros b; simpl; [reflexivity|].
  destruct (is_dash c).
  - intros N. apply andb_prop in N as [Hb N].
    destruct b; [discriminate Hb|]. rewrite (IH true N). reflexivity.
  - intros N. rewrite (IH false N). reflexivity.
Qed.

Lemma slug_rstrip_dash s : forall b,
  dashes_separate b s = true -> rstrip_class is_dash s = s.
Proof.
  induction s as [|c s IH]; intros b; simpl; [reflexivity|].
  destruct (is_dash c) eqn:E.
  - intros H. apply andb_prop in H as [_ H]. rewrite (IH true H).
    destruct s; [discriminate H|reflexivity].
  - intros H. rewrite (IH false H). destruct s; reflexivity.
Qed.

Lemma slug_lstrip_dash s :
  dashes_separate true s = true -> lstrip_class is_dash s = s.
Proof.
  destruct s as [|c s]; simpl; [reflexivity|].
  destruct (is_dash c); [discriminate|reflexivity].
Qed.

(** X25. Making a slug of a slug changes nothing. *)
Theorem sanitize_slug_idempotent text :
  sanitize_slug (sanitize_slug text) = sanitize_slug text.
Proof.
  destruct (sanitize_slug_clean text) as [Hc Hd].
  set (s := sanitize_slug text) in *. unfold sanitize_slug at 1.
  unfold strip. rewrite (slug_lstrip s Hc), (slug_rstrip s Hc),
    (slug_lower s Hc).
  pose proof (dashes_separate_no_double s true Hd) as Hn.
  assert (no_double_dash false s = true) as Hn0.
  { destruct s as [|c r]; [reflexivity|]. simpl in Hn |- *.
    destruct (is_dash c); [discriminate Hn|exact Hn]. }
  rewrite (slug_sub_runs s false Hc Hn0), (slug_sub_dashes s false Hn0).
  unfold strip_class.
  rewrite (slug_lstrip_dash s Hd), (slug_rstrip_dash s true Hd).
  destruct s; [discriminate Hd|reflexivity].
Qed.

Example slugs :
  map sanitize_slug
      ["  Neon Rain -- Street/Food!  "; "../../etc"; "***"; EmptyString]%string
  = ["neon-rain-street-food"; "etc"; "image"; "image"]%string.
Proof. reflexivity. Qed.

(** ** The job configuration *)

Lemma model_defaults_nonempty model :
  let defaults := match get model MODEL_DEFAULTS with
                  | Some d => d
                  | None => ("1024x1024", "high")%string
                  end in
  fst defaults <> EmptyString /\ snd defaults <> EmptyString.
Proof.
  unfold MODEL_DEFAULTS. cbn [get].
  repeat match goal with
         | |- context [if ?c then _ else _] => destruct c
         end; split; discriminate.
Qed.

Lemma str_or_nonempty x y : y <> EmptyString -> str_or x y <> EmptyString.
Proof. destruct x; simpl; [auto|discriminate]. Qed.

(** X26. Every job configuration asks for at least one image, for exactly
    one when the model is dall-e-3, and has a size and a quality that are
    not empty; the count differs from the one asked for (raised to 1) only
    together with a warning. *)
Theorem build_job_config_well_formed choose_output_dir args :
  let warnings := fst (build_job_config choose_output_dir args) in
  let cfg := snd (build_job_config choose_output_dir args) in
  1 <= count cfg
  /\ (model cfg = "dall-e-3"%string -> count cfg = 1)
  /\ size cfg <> EmptyString
  /\ quality cfg <> EmptyString
  /\ (count cfg = Z.max 1 (a_count args) \/ warnings <> []).
Proof.
  cbv zeta. unfold build_job_config.
  pose proof (model_defaults_nonempty (strip (a_model args))) as [Hs Hq].
  cbv zeta in Hs, Hq.
  destruct (String.eqb_spec (strip (a_model args)) "dall-e-3") as [E|E];
    cbn [andb];
    [destruct (Z.gtb_spec (Z.max 1 (a_count args)) 1)|];
    cbn [fst snd count model size quality].
  - split; [lia|]. split; [reflexivity|].
    split; [apply str_or_nonempty, Hs|].
    split; [apply str_or_nonempty, Hq|]. right. discriminate.
  - split; [lia|]. split; [lia|].
    split; [apply str_or_nonempty, Hs|].
    split; [apply str_or_nonempty, Hq|]. left. reflexivity.
  - split; [lia|]. split; [congruence|].
    split; [apply str_or_nonempty, Hs|].
    split; [apply str_or_nonempty, Hq|]. left. reflexivity.
Qed.

Lemma build_job_config_well_formed_witness :
  count (snd (build_job_config sample_choose_output_dir
                               sample_args_applied)) = 1.
Proof.
  apply (proj1 (proj2 (build_job_config_well_formed
                         sample_choose_output_dir sample_args_applied))).
  reflexivity.
Defined.

Section JobFacts.
Variables (choose_output_dir : string -> string)
          (json_loads : string -> value + string)
          (int_of_str : string -> option Z)
          (str_of_other : value -> string).

Lemma is_empty_false s : s <> EmptyString -> is_empty s = false.
Proof. destruct s; [congruence|reflexivity]. Qed.

(** X27. A value given on the command line is not replaced by the input:
    after [apply_runtime_input] every text option that was not empty is
    what it was, so is a model other than the default gpt-image-1, and the
    input text is never touched. *)
Theorem command_line_values_win args mode args' :
  apply_runtime_input json_loads int_of_str str_of_other args
  = Applied mode args' ->
  (a_prompt args <> EmptyString -> a_prompt args' = a_prompt args)
  /\ (a_model args <> "gpt-image-1"%string -> a_model args' = a_model args)
  /\ (a_size args <> EmptyString -> a_size args' = a_size args)
  /\ (a_quality args <> EmptyString -> a_quality args' = a_quality args)
  /\ (a_background args <> EmptyString ->
      a_background args' = a_background args)
  /\ (a_output_format args <> EmptyString ->
      a_output_format args' = a_output_format args)
  /\ (a_style args <> EmptyString -> a_style args' = a_style args)
  /\ (a_out_dir args <> EmptyString -> a_out_dir args' = a_out_dir args)
  /\ a_input args' = a_input args.
Proof.
  unfold apply_runtime_input.
  destruct (is_empty (strip (a_input args))).
  { intros [= <- <-]. repeat split; reflexivity. }
  destruct (json_loads (strip (a_input args))) as [v|err]; [|discriminate].
  destruct v as [| | | | | |payload]; try discriminate.
  intros H.
  assert (exists n,
             args' = {|
               a_prompt :=
                 if has_key "prompt" payload && is_empty (a_prompt args)
                 then py_str str_of_other (payload_get payload "prompt")
                 else a_prompt args;
               a_count := n;
               a_model :=
                 if has_key "model" payload
                    && String.eqb (a_model args) "gpt-image-1"
                 then py_str str_of_other (payload_get payload "model")
                 else a_model args;
               a_size :=
                 if has_key "size" payload && is_empty (a_size args)
                 then py_str str_of_other (payload_get payload "size")
                 else a_size args;
               a_quality :=
                 if has_key "quality" payload && is_empty (a_quality args)
                 then py_str str_of_other (payload_get payload "quality")
                 else a_quality args;
               a_background :=
                 if has_key "background" payload
                    && is_empty (a_background args)
                 then py_str str_of_other (payload_get payload "background")
                 else a_background args;
               a_output_format :=
                 if has_key "output_format" payload
                    && is_empty (a_output_format args)
                 then py_str str_of_other
                             (payload_get payload "output_format")
                 else a_output_format args;
               a_style :=
                 if has_key "style" payload && is_empty (a_style args)
                 then py_str str_of_other (payload_get payload "style")
                 else a_style args;
               a_out_dir :=
                 if has_key "out_dir" payload && is_empty (a_out_dir args)
                 then py_str str_of_other (payload_get payload "out_dir")
                 else a_out_dir args;
               a_input := a_input args |}) as [n ->].
  { destruct (has_key "count" payload).
    - destruct (py_int int_of_str (payload_get payload "count"))
        as [n|[]]; try discriminate.
      exists n. injection H as _ <-. reflexivity.
    - destruct (a_count args =? 6).
      + exists 1. injection H as _ <-. reflexivity.
      + exists (a_count args). injection H as _ <-. reflexivity. }
  cbn [a_prompt a_model a_size a_quality a_background a_output_format
       a_style a_out_dir a_input].
  repeat split; try reflexivity; intros Hne;
    try (rewrite (is_empty_false _ Hne), andb_false_r; reflexivity).
  apply String.eqb_neq in Hne. rewrite Hne, andb_false_r. reflexivity.
Qed.

(** X28. A runtime call that names no count, made with the count the
    command line has by default (6), asks for one image only. *)
Theorem runtime_call_defaults_to_one_image args args' payload :
  apply_runtime_input json_loads int_of_str str_of_other args
  = Applied true args' ->
  json_loads (strip (a_input args)) = inl (VDict payload) ->
  has_key "count" payload = false ->
  a_count args = 6 ->
  a_count args' = 1
  /\ count (snd (build_job_config choose_output_dir args')) = 1.
Proof.
  unfold apply_runtime_input. intros H Hj Hk Hc.
  destruct (is_empty (strip (a_input args))); [discriminate H|].
  rewrite Hj, Hk, Hc in H. cbn [Z.eqb Pos.eqb] in H.
  injection H as <-. cbn [a_count].
  split; [reflexivity|].
  unfold build_job_config. cbn [a_count].
  change (Z.max 1 1) with 1. change (1 >? 1) with false.
  rewrite andb_false_r. reflexivity.
Qed.

End JobFacts.

Lemma command_line_values_win_witness :
  (a_prompt sample_args <> EmptyString ->
   a_prompt sample_args_applied = a_prompt sample_args)
  /\ (a_model sample_args <> "gpt-image-1"%string ->
      a_model sample_args_applied = a_model sample_args)
  /\ (a_size sample_args <> EmptyString ->
      a_size sample_args_applied = a_size sample_args)
  /\ (a_quality sample_args <> EmptyString ->
      a_quality sample_args_applied = a_quality sample_args)
  /\ (a_background sample_args <> EmptyString ->
      a_background sample_args_applied = a_background sample_args)
  /\ (a_output_format sample_args <> EmptyString ->
      a_output_format sample_args_applied = a_output_format sample_args)
  /\ (a_style sample_args <> EmptyString ->
      a_style sample_args_applied = a_style sample_args)
  /\ (a_out_dir sample_args <> EmptyString ->
      a_out_dir sample_args_applied = a_out_dir sample_args)
  /\ a_input sample_args_applied = a_input sample_args.
Proof.
  apply (command_line_values_win sample_job_loads sample_int_of_str
           sample_str_of_other sample_args true sample_args_applied).
  reflexivity.
Defined.

Lemma runtime_call_defaults_to_one_image_witness :
  a_count sample_args_applied = 1
  /\ count (snd (build_job_config sample_choose_output_dir
                                  sample_args_applied)) = 1.
Proof.
  apply (runtime_call_defaults_to_one_image sample_choose_output_dir
           sample_job_loads sample_int_of_str sample_str_of_other
           sample_args sample_args_applied sample_job_payload).
  - reflexivity.
  - reflexivity.
  - reflexivity.
  - reflexivity.
Defined.
